(** * The assembly constraint solver of [cadquery/occ_impl/solver.py]

    A shallow embedding of the class [ConstraintSolver]: the pose codec
    ([_locToDOF6], [_build_transform]), the Jacobian sparsity pattern
    ([_jacobianSparsity]), the residual function ([_cost]) and the driver
    ([solve]), followed by the properties of the specification.

    The arithmetic of the source is written once, over an interface
    [Arith], and read twice: over the real numbers, where the algebraic
    properties are proved, and over IEEE binary64 (the kernel's primitive
    floats), where the code can be run on concrete inputs exactly as
    Python runs it. *)

From Stdlib Require Import Floats.
From Stdlib Require Import List ZArith Reals Lra Lia Bool.
Import ListNotations.

Set Implicit Arguments.

(* ================================================================== *)
(** ** Numbers *)

(** The operations the source applies to its floating-point numbers. *)
Class Arith (T : Type) := {
  num0 : T;
  num1 : T;
  num2 : T;
  nadd : T -> T -> T;
  nsub : T -> T -> T;
  nmul : T -> T -> T;
  ndiv : T -> T -> T;
  nsqrt : T -> T;
  neqb : T -> T -> bool;
  nltb : T -> T -> bool
}.

Declare Scope arith_scope.
Infix "+!" := nadd (at level 50, left associativity) : arith_scope.
Infix "-!" := nsub (at level 50, left associativity) : arith_scope.
Infix "*!" := nmul (at level 40, left associativity) : arith_scope.
Infix "/!" := ndiv (at level 40, left associativity) : arith_scope.
Local Open Scope arith_scope.

(** Exact arithmetic. *)
#[export] Instance R_arith : Arith R := {|
  num0 := 0%R;
  num1 := 1%R;
  num2 := 2%R;
  nadd := Rplus;
  nsub := Rminus;
  nmul := Rmult;
  ndiv := Rdiv;
  nsqrt := R_sqrt.sqrt;
  neqb := fun x y => if Req_dec_T x y then true else false;
  nltb := fun x y => if Rlt_dec x y then true else false
|}.

(** IEEE 754 binary64, the representation of Python's [float] and of
    numpy's [float64]. *)
#[export] Instance binary64 : Arith float := {|
  num0 := 0%float;
  num1 := 1%float;
  num2 := 2%float;
  nadd := PrimFloat.add;
  nsub := PrimFloat.sub;
  nmul := PrimFloat.mul;
  ndiv := PrimFloat.div;
  nsqrt := PrimFloat.sqrt;
  neqb := PrimFloat.eqb;
  nltb := PrimFloat.ltb
|}.

(* ================================================================== *)
(** ** Python exceptions *)

Inductive exn : Type :=
| ZeroDivisionError
| NotImplementedError
| TypeError
| AttributeError
| IndexError
| ValueError.

Inductive result (A : Type) : Type :=
| Ok (a : A)
| Raise (e : exn).

Arguments Ok {A} a.
Arguments Raise {A} e.

Definition bind {A B : Type} (r : result A) (k : A -> result B) : result B :=
  match r with
  | Ok a => k a
  | Raise e => Raise e
  end.

Notation "x <- r ;; k" := (bind r (fun x => k))
  (at level 61, r at next level, right associativity).

(** A list comprehension whose body may raise: the elements are computed
    from left to right and the first exception ends the comprehension. *)
Fixpoint mapM {A B : Type} (f : A -> result B) (l : list A) : result (list B) :=
  match l with
  | [] => Ok []
  | a :: l' => b <- f a ;; bs <- mapM f l' ;; Ok (b :: bs)
  end.

(** [l[k]] on a Python list: a negative index counts from the end, an index
    out of range raises [IndexError]. *)
Definition py_getitem {A : Type} (l : list A) (k : Z) : result A :=
  let n := Z.of_nat (length l) in
  let k' := if (k <? 0)%Z then (k + n)%Z else k in
  if ((0 <=? k') && (k' <? n))%Z
  then match nth_error l (Z.to_nat k') with
       | Some a => Ok a
       | None => Raise IndexError
       end
  else Raise IndexError.

(** [l[i] = v] for an index [i] produced by [enumerate] (never negative):
    out of range it raises [IndexError]. *)
Fixpoint py_setitem {A : Type} (l : list A) (i : nat) (v : A) : result (list A) :=
  match l, i with
  | [], _ => Raise IndexError
  | _ :: l', O => Ok (v :: l')
  | a :: l', S i' => r <- py_setitem l' i' v ;; Ok (a :: r)
  end.

(** The bounds of the slice [lo:hi] of a sequence of length [n], as Python
    normalises them: a negative bound counts from the end, and both are
    clipped to [0, n]. *)
Definition slice_bound (n : nat) (i : Z) : nat :=
  if (i <? 0)%Z
  then Z.to_nat (Z.max 0 (i + Z.of_nat n))
  else Z.to_nat (Z.min i (Z.of_nat n)).

(** [x[lo:hi]] *)
Definition py_slice {A : Type} (l : list A) (lo hi : Z) : list A :=
  let s := slice_bound (length l) lo in
  let e := slice_bound (length l) hi in
  firstn (e - s) (skipn s l).

(** [row[lo:hi] = v] on a numpy row: every position of the slice receives
    the scalar [v]; positions outside keep their value. *)
Definition assign_slice {A : Type} (row : list A) (lo hi : Z) (v : A) : list A :=
  let s := slice_bound (length row) lo in
  let e := slice_bound (length row) hi in
  map (fun '(j, old) => if ((s <=? j) && (j <? e))%nat then v else old)
      (combine (seq 0 (length row)) row).

(* ================================================================== *)
(** ** The solver, over any arithmetic *)

Section Solver.

Context {T : Type} `{AT : Arith T}.

(** *** The geometry kernel at its boundary

    [gp_Vec], [gp_Quaternion], [gp_Mat] and [gp_Trsf] belong to the
    geometry kernel, which is not part of this repository.  The model
    follows the kernel: a transform of scale 1 holds a 3x3 matrix and a
    translation.  [SetTranslation] stores the translation and resets the
    matrix to the identity; [SetRotation] stores the matrix of the
    quaternion it is handed, divided by its squared norm, and resets the
    translation to zero; [GetRotation] recomputes a quaternion of norm 1
    from the matrix, so that what it reports is not the quaternion that
    was handed to [SetRotation] but that quaternion divided by its length,
    up to sign. *)

Record gp_Vec : Type := mk_Vec { vX : T; vY : T; vZ : T }.

Record gp_Quaternion : Type := mk_Quaternion { qX : T; qY : T; qZ : T; qW : T }.

Record gp_Mat : Type := mk_Mat {
  m11 : T; m12 : T; m13 : T;
  m21 : T; m22 : T; m23 : T;
  m31 : T; m32 : T; m33 : T
}.

Record gp_Trsf : Type := mk_Trsf {
  HVectorialPart : gp_Mat;
  TranslationPart : gp_Vec
}.

Definition gp_Mat_Identity : gp_Mat :=
  mk_Mat num1 num0 num0 num0 num1 num0 num0 num0 num1.

(** [gp_Trsf()]: the identity. *)
Definition gp_Trsf_new : gp_Trsf :=
  mk_Trsf gp_Mat_Identity (mk_Vec num0 num0 num0).

(** [qx² + qy² + qz² + qw²] *)
Definition SquareNorm (q : gp_Quaternion) : T :=
  qX q *! qX q +! qY q *! qY q +! qZ q *! qZ q +! qW q *! qW q.

(** [q.GetMatrix()]: the rotation matrix of [q / |q|]. *)
Definition GetMatrix (q : gp_Quaternion) : gp_Mat :=
  let x := qX q in
  let y := qY q in
  let z := qZ q in
  let w := qW q in
  let s := num2 /! SquareNorm q in
  let x2 := x *! s in
  let y2 := y *! s in
  let z2 := z *! s in
  let xx := x *! x2 in
  let xy := x *! y2 in
  let xz := x *! z2 in
  let yy := y *! y2 in
  let yz := y *! z2 in
  let zz := z *! z2 in
  let wx := w *! x2 in
  let wy := w *! y2 in
  let wz := w *! z2 in
  mk_Mat (num1 -! (yy +! zz)) (xy -! wz) (xz +! wy)
         (xy +! wz) (num1 -! (xx +! zz)) (yz -! wx)
         (xz -! wy) (yz +! wx) (num1 -! (xx +! yy)).

(** [q.Scale(c)] *)
Definition Scale (q : gp_Quaternion) (c : T) : gp_Quaternion :=
  mk_Quaternion (qX q *! c) (qY q *! c) (qZ q *! c) (qW q *! c).

Definition Trace (m : gp_Mat) : T := m11 m +! m22 m +! m33 m.

(** [gp_Quaternion(mat)]: the quaternion of a rotation matrix.  With a
    positive trace the pivot is [w]; otherwise the largest diagonal entry
    chooses the pivot among [x], [y] and [z].  The pivot comes out
    positive and the other three components follow from it. *)
Definition SetMatrix (m : gp_Mat) : gp_Quaternion :=
  let half := num1 /! num2 in
  let tr := Trace m in
  if nltb num0 tr then
    let q := mk_Quaternion (m32 m -! m23 m) (m13 m -! m31 m) (m21 m -! m12 m)
                           (tr +! num1) in
    Scale q (half /! nsqrt (qW q))
  else if nltb (m22 m) (m11 m) && nltb (m33 m) (m11 m) then
    let q := mk_Quaternion (num1 +! m11 m -! m22 m -! m33 m) (m12 m +! m21 m)
                           (m13 m +! m31 m) (m32 m -! m23 m) in
    Scale q (half /! nsqrt (qX q))
  else if nltb (m33 m) (m22 m) then
    let q := mk_Quaternion (m12 m +! m21 m) (num1 +! m22 m -! m11 m -! m33 m)
                           (m23 m +! m32 m) (m13 m -! m31 m) in
    Scale q (half /! nsqrt (qY q))
  else
    let q := mk_Quaternion (m13 m +! m31 m) (m23 m +! m32 m)
                           (num1 +! m33 m -! m11 m -! m22 m) (m21 m -! m12 m) in
    Scale q (half /! nsqrt (qZ q)).

(** [t.SetTranslation(v)] *)
Definition SetTranslation (t : gp_Trsf) (v : gp_Vec) : gp_Trsf :=
  mk_Trsf gp_Mat_Identity v.

(** [t.SetRotation(q)] *)
Definition SetRotation (t : gp_Trsf) (q : gp_Quaternion) : gp_Trsf :=
  mk_Trsf (GetMatrix q) (mk_Vec num0 num0 num0).

(** [t.GetRotation()] *)
Definition GetRotation (t : gp_Trsf) : gp_Quaternion :=
  SetMatrix (HVectorialPart t).

(** [Location(trsf)], and [loc.wrapped.Transformation()] to read it back. *)
Record Location : Type := mk_Location { wrapped : gp_Trsf }.

Definition Transformation (t : gp_Trsf) : gp_Trsf := t.

Definition vec_add (u v : gp_Vec) : gp_Vec :=
  mk_Vec (vX u +! vX v) (vY u +! vY v) (vZ u +! vZ v).

(** [u - v] on coordinate triples *)
Definition vec_sub (u v : gp_Vec) : gp_Vec :=
  mk_Vec (vX u -! vX v) (vY u -! vY v) (vZ u -! vZ v).

(** [xyz.Modulus()] *)
Definition Modulus (u : gp_Vec) : T :=
  nsqrt (vX u *! vX u +! vY u *! vY u +! vZ u *! vZ u).

(** [xyz.Divided(d)] *)
Definition Divided (u : gp_Vec) (d : T) : gp_Vec :=
  mk_Vec (vX u /! d) (vY u /! d) (vZ u /! d).

(** [d1 * d2] on directions: the dot product *)
Definition Dot (u v : gp_Vec) : T :=
  vX u *! vX v +! vY u *! vY v +! vZ u *! vZ v.

(** The kernel's action of a matrix on a coordinate triple. *)
Variable rotate : gp_Mat -> gp_Vec -> gp_Vec.

(** [p.Transformed(t)] on a point: the matrix, then the translation. *)
Definition Pnt_Transformed (p : gp_Vec) (t : gp_Trsf) : gp_Vec :=
  vec_add (rotate (HVectorialPart t) p) (TranslationPart t).

(** [d.Transformed(t)] on a direction: the matrix alone, and the result
    brought back to length 1. *)
Definition Dir_Transformed (d : gp_Vec) (t : gp_Trsf) : gp_Vec :=
  let v := rotate (HVectorialPart t) d in
  Divided v (Modulus v).

(** *** Data *)

Definition DOF6 : Type := (T * T * T * T * T * T)%type.

(** A marker is a [gp_Pnt], a [gp_Dir], or (what the last branch of the
    residual loop is there for) an object that is neither and has none of
    the kernel's methods. *)
Inductive ConstraintMarker : Type :=
| gp_Pnt (p : gp_Vec)
| gp_Dir (d : gp_Vec)
| py_object.

Definition Constraint : Type := (list ConstraintMarker * list ConstraintMarker)%type.

(** The constraint mapping, a [dict] keyed by index pairs, in insertion
    order. *)
Definition Constraints : Type := list ((Z * Z) * Constraint).

Record ConstraintSolver : Type := mk_ConstraintSolver {
  entities : list DOF6;
  constraints : Constraints;
  ne : nat;
  nc : nat
}.

(** *** Arithmetic of Python floats and of numpy scalars

    [x / y] on Python floats raises [ZeroDivisionError] when [y == 0];
    on numpy [float64] scalars it does not raise.  [a ** 2] is [a * a]. *)
Definition py_truediv (x y : T) : result T :=
  if neqb y num0 then Raise ZeroDivisionError else Ok (x /! y).

Definition sq (a : T) : T := a *! a.

(** *** [_locToDOF6]

    The quaternion components come from the kernel as Python floats; the
    divisions by the literal [2] cannot raise. *)
Definition _locToDOF6 (loc : Location) : result DOF6 :=
  let T_ := Transformation (wrapped loc) in
  let v := TranslationPart T_ in
  let q := GetRotation T_ in
  alpha_2 <- py_truediv (num1 -! qW q) (num1 +! qW q) ;;
  let a := (alpha_2 +! num1) *! qX q /! num2 in
  let b := (alpha_2 +! num1) *! qY q /! num2 in
  let c := (alpha_2 +! num1) *! qZ q /! num2 in
  Ok (vX v, vY v, vZ v, a, b, c).

(** *** [__init__] *)
Definition __init__ (locs : list Location) (cs : Constraints)
  : result ConstraintSolver :=
  es <- mapM _locToDOF6 locs ;;
  Ok (mk_ConstraintSolver es cs (length locs) (length cs)).

(** *** [_build_transform]

    Its arguments are numpy scalars (slices of the parameter vector). *)

(** The [gp_Quaternion(...)] that [_build_transform] hands to
    [SetRotation], with [m = a ** 2 + b ** 2 + c ** 2]. *)
Definition build_quaternion (a b c : T) : gp_Quaternion :=
  let m := sq a +! sq b +! sq c in
  mk_Quaternion
    (if negb (neqb m num0) then num2 *! a /! m else num0)
    (if negb (neqb m num0) then num2 *! b /! m else num0)
    (if negb (neqb m num0) then num2 *! c /! m else num0)
    ((num1 -! m) /! (m +! num1)).

Definition _build_transform (x y z a b c : T) : gp_Trsf :=
  let rv := gp_Trsf_new in
  let rv := SetTranslation rv (mk_Vec x y z) in
  let rv := SetRotation rv (build_quaternion a b c) in
  rv.

(** [self._build_transform( *x[6*i : 6*(i+1)] )]: the slice is unpacked
    into the six arguments; any other number of elements is a [TypeError]. *)
Definition build_slice (x : list T) (i : nat) : result gp_Trsf :=
  match py_slice x (6 * Z.of_nat i) (6 * (Z.of_nat i + 1)) with
  | [x_; y_; z_; a; b; c] => Ok (_build_transform x_ y_ z_ a b c)
  | _ => Raise TypeError
  end.

(** *** [_jacobianSparsity] *)

(** [rv[i, lo:hi] = v] *)
Definition assign_row_slice (rv : list (list T)) (i : nat) (lo hi : Z) (v : T)
  : result (list (list T)) :=
  match nth_error rv i with
  | Some row => py_setitem rv i (assign_slice row lo hi v)
  | None => Raise IndexError
  end.

Fixpoint sparsity_loop (rv : list (list T)) (i : nat) (cs : Constraints)
  : result (list (list T)) :=
  match cs with
  | [] => Ok rv
  | ((k1, k2), _) :: cs' =>
      rv <- assign_row_slice rv i (6 * k1) (6 * (k1 + 1)) num1 ;;
      rv <- assign_row_slice rv i (6 * k2) (6 * (k2 + 1)) num1 ;;
      sparsity_loop rv (S i) cs'
  end.

Definition _jacobianSparsity (self : ConstraintSolver) : result (list (list T)) :=
  let rv := repeat (repeat num0 (6 * ne self)) (nc self) in
  sparsity_loop rv 0 (constraints self).

(** *** [_cost]: the residual function [f] it returns *)

(** [m.Transformed(t).XYZ()], which points and directions both offer. *)
Definition Transformed_XYZ (m : ConstraintMarker) (t : gp_Trsf) : result gp_Vec :=
  match m with
  | gp_Pnt p => Ok (Pnt_Transformed p t)
  | gp_Dir d => Ok (Dir_Transformed d t)
  | py_object => Raise AttributeError
  end.

(** The value added to [rv[i]] for one marker pair.  Only the type of [m1]
    is inspected; [m2] meets the kernel's operations as it is: the dot
    product of the kernel takes a direction and nothing else. *)
Definition marker_term (t1 t2 : gp_Trsf) (m1 m2 : ConstraintMarker) : result T :=
  match m1 with
  | gp_Pnt p =>
      xyz2 <- Transformed_XYZ m2 t2 ;;
      Ok (Modulus (vec_sub (Pnt_Transformed p t1) xyz2))
  | gp_Dir d =>
      match m2 with
      | gp_Dir d2 => Ok (Dot (Dir_Transformed d t1) (Dir_Transformed d2 t2))
      | gp_Pnt _ => Raise TypeError
      | py_object => Raise AttributeError
      end
  | py_object => Raise NotImplementedError
  end.

(** [rv[i]] read from a numpy vector, for [i] produced by [enumerate]. *)
Definition np_getitem (rv : list T) (i : nat) : result T :=
  match nth_error rv i with
  | Some v => Ok v
  | None => Raise IndexError
  end.

(** [for m1, m2 in zip(ms1, ms2): rv[i] += ...] *)
Fixpoint markers_loop (rv : list T) (i : nat) (t1 t2 : gp_Trsf)
    (ps : list (ConstraintMarker * ConstraintMarker)) : result (list T) :=
  match ps with
  | [] => Ok rv
  | (m1, m2) :: ps' =>
      old <- np_getitem rv i ;;
      v <- marker_term t1 t2 m1 m2 ;;
      rv <- py_setitem rv i (old +! v) ;;
      markers_loop rv i t1 t2 ps'
  end.

(** [for i, ((k1, k2), (ms1, ms2)) in enumerate(constraints.items()): ...] *)
Fixpoint constraints_loop (transforms : list gp_Trsf) (rv : list T) (i : nat)
    (cs : Constraints) : result (list T) :=
  match cs with
  | [] => Ok rv
  | ((k1, k2), (ms1, ms2)) :: cs' =>
      t1 <- py_getitem transforms k1 ;;
      t2 <- py_getitem transforms k2 ;;
      rv <- markers_loop rv i t1 t2 (combine ms1 ms2) ;;
      constraints_loop transforms rv (S i) cs'
  end.

Definition _cost (self : ConstraintSolver) (x : list T) : result (list T) :=
  let constraints := constraints self in
  let nc := nc self in
  let ne := ne self in
  let rv := repeat num0 nc in
  transforms <- mapM (build_slice x) (seq 0 ne) ;;
  constraints_loop transforms rv 0 constraints.

(** *** The external least-squares routine

    The routine is a black box that receives the residual function as a
    callback.  All this file knows of it is that it asks for residuals at
    points of its choice, each answer deciding what it does next, and that
    it ends with a final iterate or with an exception of its own (scipy
    raises [ValueError] on an empty start vector); an exception raised by
    the callback is not caught and ends the call. *)
Inductive Optimizer : Type :=
| Finish (x : list T)
| Evaluate (x : list T) (k : list T -> Optimizer)
| Fail (e : exn).

Fixpoint run_optimizer (f : list T -> result (list T)) (o : Optimizer)
  : result (list T) :=
  match o with
  | Finish x => Ok x
  | Evaluate x k => r <- f x ;; run_optimizer f (k r)
  | Fail e => Raise e
  end.

(** [least_squares(fun, x0, jac_sparsity=...)], applied to the start vector
    and the sparsity pattern. *)
Variable least_squares : list T -> list (list T) -> Optimizer.

(** *** [solve] *)

(** [array([el for el in self.entities]).ravel()] *)
Definition ravel (es : list DOF6) : list T :=
  flat_map (fun '(x, y, z, a, b, c) => [x; y; z; a; b; c]) es.

Definition solve (self : ConstraintSolver) : result (list Location) :=
  let x0 := ravel (entities self) in
  sparsity <- _jacobianSparsity self ;;
  x <- run_optimizer (_cost self) (least_squares x0 sparsity) ;;
  mapM (fun i => t <- build_slice x i ;; Ok (mk_Location t)) (seq 0 (ne self)).

End Solver.

Arguments gp_Vec T : clear implicits.
Arguments gp_Quaternion T : clear implicits.
Arguments gp_Mat T : clear implicits.
Arguments gp_Trsf T : clear implicits.
Arguments Location T : clear implicits.
Arguments ConstraintMarker T : clear implicits.
Arguments Constraint T : clear implicits.
Arguments Constraints T : clear implicits.
Arguments ConstraintSolver T : clear implicits.
Arguments Optimizer T : clear implicits.
Arguments DOF6 T : clear implicits.


(* ================================================================== *)
(** ** Auxiliary definitions used to state the properties *)

Section Auxiliary.

Context {T : Type} `{AT : Arith T}.

Variable rotate : gp_Mat T -> gp_Vec T -> gp_Vec T.

(** The pose built from the [i]-th block of six parameters of [x]. *)
Definition pose_at (x : list T) (i : nat) : gp_Trsf T :=
  _build_transform (nth (6 * i) x num0) (nth (6 * i + 1) x num0)
                   (nth (6 * i + 2) x num0) (nth (6 * i + 3) x num0)
                   (nth (6 * i + 4) x num0) (nth (6 * i + 5) x num0).

(** What the inner loop adds up, starting from the value [acc] of [rv[i]]. *)
Fixpoint residual_sum (t1 t2 : gp_Trsf T) (acc : T)
    (ps : list (ConstraintMarker T * ConstraintMarker T)) : result T :=
  match ps with
  | [] => Ok acc
  | (m1, m2) :: ps' =>
      v <- marker_term rotate t1 t2 m1 m2 ;;
      residual_sum t1 t2 (acc +! v) ps'
  end.

(** One pass of the outer loop, as a function of the constraint alone. *)
Definition row_value (transforms : list (gp_Trsf T))
    (c : (Z * Z) * Constraint T) : result T :=
  let '((k1, k2), (ms1, ms2)) := c in
  t1 <- py_getitem transforms k1 ;;
  t2 <- py_getitem transforms k2 ;;
  residual_sum t1 t2 num0 (combine ms1 ms2).

(** The row of the sparsity pattern written for the pair [(k1, k2)]. *)
Definition sparsity_row (n : nat) (c : (Z * Z) * Constraint T) : list T :=
  let '((k1, k2), _) := c in
  assign_slice
    (assign_slice (repeat num0 (6 * n)) (6 * k1) (6 * (k1 + 1)) num1)
    (6 * k2) (6 * (k2 + 1)) num1.

(** Column [j] lies in the block [[6k, 6k+6)] of entity [k]. *)
Definition in_block (k : Z) (j : nat) : bool :=
  ((6 * k <=? Z.of_nat j) && (Z.of_nat j <? 6 * k + 6))%Z.

(** The invariant of the data model on entity indices. *)
Definition index_in_range (n : nat) (k : Z) : Prop :=
  (0 <= k < Z.of_nat n)%Z.

(** Both markers are points, or both are directions. *)
Definition same_kind (m1 m2 : ConstraintMarker T) : bool :=
  match m1, m2 with
  | gp_Pnt _, gp_Pnt _ => true
  | gp_Dir _, gp_Dir _ => true
  | _, _ => false
  end.

(** The pairs on which the residual loop raises nothing. *)
Definition pair_computes (m1 m2 : ConstraintMarker T) : bool :=
  match m1, m2 with
  | gp_Pnt _, gp_Pnt _ => true
  | gp_Pnt _, gp_Dir _ => true
  | gp_Dir _, gp_Dir _ => true
  | _, _ => false
  end.

(** The pairs the residual loop refuses: the first marker is neither a
    point nor a direction, or it is a direction and the second is not, or
    the second is neither. *)
Definition pair_raises (m1 m2 : ConstraintMarker T) : bool :=
  negb (pair_computes m1 m2).

(** The class invariant [__init__] establishes. *)
Definition solver_inv (self : ConstraintSolver T) : Prop :=
  ne self = length (entities self) /\ nc self = length (constraints self).

(** A pose on which [_locToDOF6] divides by zero. *)
Definition singular (loc : Location T) : bool :=
  neqb (num1 +! qW (GetRotation (Transformation (wrapped loc)))) num0.

(** An optimizer that keeps to vectors of [n] parameters. *)
Inductive opt_wf (n : nat) : Optimizer T -> Prop :=
| opt_wf_Finish x : length x = n -> opt_wf n (Finish x)
| opt_wf_Evaluate x k :
    length x = n -> (forall r, opt_wf n (k r)) -> opt_wf n (Evaluate x k).

(** The least an optimizer does: one residual evaluation at the start
    vector, after which it returns that vector. *)
Definition one_evaluation (x0 : list T) (_ : list (list T)) : Optimizer T :=
  Evaluate x0 (fun _ => Finish x0).

(** An optimizer that refuses an empty start vector, as scipy's does, and
    returns any other start vector. *)
Definition rejects_empty_start (x0 : list T) (_ : list (list T)) : Optimizer T :=
  match x0 with
  | [] => Fail ValueError
  | _ :: _ => Finish x0
  end.

(** [xyz.Multiplied(mat)]: the matrix applied to a coordinate triple.  It
    is the kernel's [rotate] whenever the code is run on concrete data. *)
Definition Multiplied (m : gp_Mat T) (v : gp_Vec T) : gp_Vec T :=
  mk_Vec (m11 m *! vX v +! m12 m *! vY v +! m13 m *! vZ v)
         (m21 m *! vX v +! m22 m *! vY v +! m23 m *! vZ v)
         (m31 m *! vX v +! m32 m *! vY v +! m33 m *! vZ v).

(** The pose with translation [v] whose rotation is that of the
    quaternion [q]. *)
Definition pose_of (v : gp_Vec T) (q : gp_Quaternion T) : Location T :=
  mk_Location (mk_Trsf (GetMatrix q) v).

(** A pose as the kernel holds it: its matrix is the rotation matrix of
    some quaternion that is not zero. *)
Definition kernel_pose (loc : Location T) : Prop :=
  exists q : gp_Quaternion T,
    SquareNorm q <> num0 /\ HVectorialPart (wrapped loc) = GetMatrix q.

(** The marker pairs that [zip] forms share their kind. *)
Definition pairs_share_kind (ms1 ms2 : list (ConstraintMarker T)) : Prop :=
  Forall (fun p => same_kind (fst p) (snd p) = true) (combine ms1 ms2).

(** The invariants of the data model on a constraint, but for the equality
    of the two lengths. *)
Definition constraint_zip_wf (n : nat) (c : (Z * Z) * Constraint T) : Prop :=
  let '((k1, k2), (ms1, ms2)) := c in
  index_in_range n k1 /\ index_in_range n k2 /\ pairs_share_kind ms1 ms2.

(** The invariants of the data model on a constraint. *)
Definition constraint_wf (n : nat) (c : (Z * Z) * Constraint T) : Prop :=
  let '((k1, k2), (ms1, ms2)) := c in
  index_in_range n k1 /\ index_in_range n k2 /\
  length ms1 = length ms2 /\ pairs_share_kind ms1 ms2.

(** Component [i] of a residual vector, or the exception raised instead. *)
Definition residual_component (i : nat) (r : result (list T)) : result T :=
  match r with
  | Ok rv => Ok (nth i rv num0)
  | Raise e => Raise e
  end.

(** Two computations end alike: both return, or both raise the same
    exception. *)
Definition same_outcome {A B : Type} (r1 : result A) (r2 : result B) : Prop :=
  match r1, r2 with
  | Ok _, Ok _ => True
  | Raise e1, Raise e2 => e1 = e2
  | _, _ => False
  end.

(** A constraint on which the residual loop raises nothing. *)
Definition constraint_computes (n : nat) (c : (Z * Z) * Constraint T) : Prop :=
  let '((k1, k2), (ms1, ms2)) := c in
  index_in_range n k1 /\ index_in_range n k2 /\
  Forall (fun p => pair_computes (fst p) (snd p) = true) (combine ms1 ms2).

(** The pose of six parameters, as [solve] returns it. *)
Definition encode (d : DOF6 T) : Location T :=
  let '(x, y, z, a, b, c) := d in
  mk_Location (_build_transform x y z a b c).

(** *** Sample data: bodies at rest and a few mates *)

Definition origin : gp_Vec T := mk_Vec num0 num0 num0.
Definition unit_x : gp_Vec T := mk_Vec num1 num0 num0.
Definition unit_y : gp_Vec T := mk_Vec num0 num1 num0.

Definition rest : DOF6 T := (num0, num0, num0, num0, num0, num0).

Definition bodies_at_rest (n : nat) (cs : Constraints T) : ConstraintSolver T :=
  mk_ConstraintSolver (repeat rest n) cs n (length cs).

(** The origins of bodies 0 and 1 coincide. *)
Definition point_mate : (Z * Z) * Constraint T :=
  ((0, 1)%Z, ([gp_Pnt origin], [gp_Pnt origin])).

(** The x axis of body 0 against the y axis of body 1. *)
Definition direction_mate : (Z * Z) * Constraint T :=
  ((0, 1)%Z, ([gp_Dir unit_x], [gp_Dir unit_y])).

(** A point of body 0 paired with a direction of body 1. *)
Definition mixed_mate : (Z * Z) * Constraint T :=
  ((0, 1)%Z, ([gp_Pnt origin], [gp_Dir unit_x])).

(** Two markers on body 0, the second not even a marker, against one
    marker of body 1. *)
Definition lopsided_mate : (Z * Z) * Constraint T :=
  ((0, 1)%Z, ([gp_Pnt origin; py_object], [gp_Pnt unit_x])).

(** A direction of body 0 paired with a point of body 1. *)
Definition refused_mate : (Z * Z) * Constraint T :=
  ((0, 1)%Z, ([gp_Dir unit_x], [gp_Pnt origin])).

(** The pose of a body at rest. *)
Definition at_rest : Location T := mk_Location gp_Trsf_new.

(** [encode(decode(pose))]: the pose rebuilt from its six parameters. *)
Definition encode_decode (loc : Location T) : result (Location T) :=
  d <- _locToDOF6 loc ;;
  let '(x, y, z, a, b, c) := d in
  Ok (mk_Location (_build_transform x y z a b c)).

(** *** Variations of a solver and of a parameter vector *)

(** A constraint read from its other side. *)
Definition swap_sides (c : (Z * Z) * Constraint T) : (Z * Z) * Constraint T :=
  let '((k1, k2), (ms1, ms2)) := c in ((k2, k1), (ms2, ms1)).

(** Two parameter vectors agree on the rotation parameters [a, b, c] of
    each of [n] bodies. *)
Definition same_rotation_parameters (n : nat) (x y : list T) : Prop :=
  forall i d : nat, (i < n)%nat -> (d < 3)%nat ->
    nth (6 * i + 3 + d) x num0 = nth (6 * i + 3 + d) y num0.

(** The entity index is one that [transforms[k]] accepts. *)
Definition index_accepted (n : nat) (k : Z) : Prop :=
  (- Z.of_nat n <= k < Z.of_nat n)%Z.

(** The value is one of the two a sparsity pattern holds. *)
Definition zero_or_one (v : T) : Prop := v = num0 \/ v = num1.

End Auxiliary.

(** *** The specification's reading of a residual row, over the reals *)

Definition sum_list (l : list R) : R := fold_right Rplus 0%R l.

Definition euclidean_distance (u v : gp_Vec R) : R :=
  sqrt ((vX u - vX v) * (vX u - vX v) + (vY u - vY v) * (vY u - vY v)
        + (vZ u - vZ v) * (vZ u - vZ v))%R.

(** 1 on the columns of the block of entity [k], 0 elsewhere. *)
Definition block_indicator (k : Z) (j : nat) : R :=
  if in_block k j then 1%R else 0%R.

(** Point pair: the distance of the two world points.  Direction pair: the
    raw dot product of the two rotated directions. *)
Definition spec_pair_term (rotate : gp_Mat R -> gp_Vec R -> gp_Vec R)
    (t1 t2 : gp_Trsf R) (p : ConstraintMarker R * ConstraintMarker R) : R :=
  match p with
  | (gp_Pnt p1, gp_Pnt p2) =>
      euclidean_distance (Pnt_Transformed rotate p1 t1) (Pnt_Transformed rotate p2 t2)
  | (gp_Dir d1, gp_Dir d2) =>
      Dot (Dir_Transformed rotate d1 t1) (Dir_Transformed rotate d2 t2)
  | _ => 0%R
  end.

Definition spec_residual (rotate : gp_Mat R -> gp_Vec R -> gp_Vec R)
    (t1 t2 : gp_Trsf R) (ms1 ms2 : list (ConstraintMarker R)) : R :=
  sum_list (map (spec_pair_term rotate t1 t2) (combine ms1 ms2)).

(** Both markers of the pair are points. *)
(** Binary64 sample data: a point 2^-600 away from the origin, and its
    mate with the origin of the other body. *)
Definition near_origin : gp_Vec float := mk_Vec 0x1p-600%float 0%float 0%float.

Definition near_mate : (Z * Z) * Constraint float :=
  ((0, 1)%Z, ([gp_Pnt near_origin], [gp_Pnt origin])).

Definition is_point_pair {T : Type} (p : ConstraintMarker T * ConstraintMarker T) : bool :=
  match p with
  | (gp_Pnt _, gp_Pnt _) => true
  | _ => false
  end.

(** The two points of a point pair meet in world space. *)
Definition world_points_coincide (rotate : gp_Mat R -> gp_Vec R -> gp_Vec R)
    (t1 t2 : gp_Trsf R) (p : ConstraintMarker R * ConstraintMarker R) : Prop :=
  match p with
  | (gp_Pnt p1, gp_Pnt p2) => Pnt_Transformed rotate p1 t1 = Pnt_Transformed rotate p2 t2
  | _ => True
  end.

Unset Implicit Arguments.

(* ================================================================== *)
(** ** Exceptions and sequences: basic facts *)

Lemma bind_Ok_inv {A B : Type} (r : result A) (k : A -> result B) (b : B) :
  bind r k = Ok b -> exists a, r = Ok a /\ k a = Ok b.
Proof.
  destruct r as [a|e]; simpl; intros H.
  - exists a; split; [reflexivity | exact H].
  - discriminate H.
Qed.

Lemma mapM_pure {A B : Type} (g : A -> B) (l : list A) :
  mapM (fun a => Ok (g a)) l = Ok (map g l).
Proof.
  induction l as [|a l IH]; simpl; [reflexivity|].
  rewrite IH; reflexivity.
Qed.

Lemma mapM_ext_in {A B : Type} (f g : A -> result B) (l : list A) :
  (forall a, In a l -> f a = g a) -> mapM f l = mapM g l.
Proof.
  induction l as [|a l IH]; simpl; intros H; [reflexivity|].
  rewrite (H a (or_introl eq_refl)), IH; [reflexivity|].
  intros b Hb; apply H; right; exact Hb.
Qed.

Lemma mapM_Ok_length {A B : Type} (f : A -> result B) (l : list A) (r : list B) :
  mapM f l = Ok r -> length r = length l.
Proof.
  revert r; induction l as [|a l IH]; simpl; intros r H.
  - injection H as <-; reflexivity.
  - apply bind_Ok_inv in H as (b & _ & H).
    apply bind_Ok_inv in H as (bs & Hbs & H).
    injection H as <-; simpl; f_equal; apply IH; exact Hbs.
Qed.

Lemma mapM_Ok_nth {A B : Type} (f : A -> result B) (l : list A) (r : list B)
    (i : nat) (a : A) :
  mapM f l = Ok r -> nth_error l i = Some a ->
  exists b, f a = Ok b /\ nth_error r i = Some b.
Proof.
  revert r i; induction l as [|a0 l IH]; simpl; intros r i H Hi.
  - destruct i; discriminate Hi.
  - apply bind_Ok_inv in H as (b & Hb & H).
    apply bind_Ok_inv in H as (bs & Hbs & H).
    injection H as <-.
    destruct i as [|i]; simpl in *.
    + injection Hi as ->; exists b; split; [exact Hb | reflexivity].
    + apply (IH bs i Hbs Hi).
Qed.

Lemma mapM_all_Ok {A B : Type} (f : A -> result B) (l : list A) :
  Forall (fun a => exists b, f a = Ok b) l -> exists r, mapM f l = Ok r.
Proof.
  induction 1 as [|a l (b & Hb) _ (r & Hr)]; simpl.
  - exists []; reflexivity.
  - exists (b :: r); rewrite Hb, Hr; reflexivity.
Qed.

Lemma py_setitem_middle {A : Type} (pre : list A) (old : A) (post : list A) (v : A) :
  py_setitem (pre ++ old :: post) (length pre) v = Ok (pre ++ v :: post).
Proof.
  induction pre as [|a pre IH]; simpl; [reflexivity|].
  rewrite IH; reflexivity.
Qed.

Lemma nth_error_middle {A : Type} (pre : list A) (a : A) (post : list A) :
  nth_error (pre ++ a :: post) (length pre) = Some a.
Proof.
  induction pre as [|b pre IH]; simpl; [reflexivity | exact IH].
Qed.

Lemma py_getitem_in_range {A : Type} (l : list A) (k : Z) (d : A) :
  (0 <= k < Z.of_nat (length l))%Z ->
  py_getitem l k = Ok (nth (Z.to_nat k) l d).
Proof.
  intros Hk; unfold py_getitem.
  destruct (Z.ltb_spec k 0) as [Hneg|_]; [lia|].
  destruct (Z.leb_spec 0 k) as [_|Hneg]; [|lia].
  destruct (Z.ltb_spec k (Z.of_nat (length l))) as [_|Hbig]; [|lia].
  simpl.
  assert (Hlt : (Z.to_nat k < length l)%nat) by lia.
  rewrite (nth_error_nth' l d Hlt); reflexivity.
Qed.

(** Inside the sequence, the bounds of a slice are its own ends. *)
Lemma slice_bound_in_range (n : nat) (i : Z) :
  (0 <= i <= Z.of_nat n)%Z -> slice_bound n i = Z.to_nat i.
Proof.
  intros Hi; unfold slice_bound.
  destruct (Z.ltb_spec i 0) as [Hneg|_]; [lia|].
  f_equal; lia.
Qed.

Lemma nth_skipn_add {A : Type} (k j : nat) (l : list A) (d : A) :
  nth j (skipn k l) d = nth (k + j) l d.
Proof.
  revert l; induction k as [|k IH]; intros l; simpl; [reflexivity|].
  destruct l as [|a l]; [destruct j; reflexivity | apply IH].
Qed.

Lemma firstn_six {A : Type} (l : list A) (d : A) :
  (6 <= length l)%nat ->
  firstn 6 l = [nth 0 l d; nth 1 l d; nth 2 l d; nth 3 l d; nth 4 l d; nth 5 l d].
Proof.
  intros H.
  do 6 (destruct l as [|? l]; [simpl in H; lia|]).
  reflexivity.
Qed.

Lemma assign_slice_length {A : Type} (row : list A) (lo hi : Z) (v : A) :
  length (assign_slice row lo hi v) = length row.
Proof.
  unfold assign_slice.
  rewrite length_map, length_combine, length_seq; lia.
Qed.

Lemma nth_map_combine_seq {A B : Type} (g : nat * A -> B) (row : list A)
    (start j : nat) (d : A) (d' : B) :
  (j < length row)%nat ->
  nth j (map g (combine (seq start (length row)) row)) d' = g (start + j, nth j row d)%nat.
Proof.
  revert start j; induction row as [|a row IH]; simpl; intros start j Hj; [lia|].
  destruct j as [|j].
  - rewrite Nat.add_0_r; reflexivity.
  - rewrite IH by lia. f_equal; f_equal; lia.
Qed.

Lemma assign_slice_nth {A : Type} (row : list A) (lo hi : Z) (v d : A) (j : nat) :
  (j < length row)%nat ->
  nth j (assign_slice row lo hi v) d =
  if ((slice_bound (length row) lo <=? j) && (j <? slice_bound (length row) hi))%nat
  then v else nth j row d.
Proof.
  intros Hj; unfold assign_slice.
  rewrite (nth_map_combine_seq _ row 0 j d d Hj); reflexivity.
Qed.

(* ================================================================== *)
(** ** The loops as functions of their input *)

Section LoopFacts.

Context {T : Type} `{AT : Arith T}.

Variable rotate : gp_Mat T -> gp_Vec T -> gp_Vec T.

Lemma np_getitem_middle (pre : list T) (old : T) (post : list T) :
  np_getitem (pre ++ old :: post) (length pre) = Ok old.
Proof.
  unfold np_getitem; rewrite nth_error_middle; reflexivity.
Qed.

(** The inner loop touches [rv[i]] alone and leaves there the running sum. *)
Lemma markers_loop_sum (t1 t2 : gp_Trsf T) ps (pre : list T) (old : T) (post : list T) :
  markers_loop rotate (pre ++ old :: post) (length pre) t1 t2 ps =
  (s <- residual_sum rotate t1 t2 old ps ;; Ok (pre ++ s :: post)).
Proof.
  revert old; induction ps as [|[m1 m2] ps IH]; intros old; simpl; [reflexivity|].
  rewrite np_getitem_middle; simpl.
  destruct (marker_term rotate t1 t2 m1 m2) as [v|e]; simpl; [|reflexivity].
  rewrite py_setitem_middle; simpl.
  apply IH.
Qed.

(** The outer loop fills the rows one after the other. *)
Lemma constraints_loop_rows (ts : list (gp_Trsf T)) (cs : Constraints T)
    (pre post : list T) :
  constraints_loop rotate ts (pre ++ repeat num0 (length cs) ++ post) (length pre) cs =
  (rows <- mapM (row_value rotate ts) cs ;; Ok (pre ++ rows ++ post)).
Proof.
  revert pre; induction cs as [|[[k1 k2] [ms1 ms2]] cs IH]; intros pre; simpl.
  - reflexivity.
  - destruct (py_getitem ts k1) as [t1|e]; simpl; [|reflexivity].
    destruct (py_getitem ts k2) as [t2|e]; simpl; [|reflexivity].
    rewrite markers_loop_sum.
    destruct (residual_sum rotate t1 t2 num0 (combine ms1 ms2)) as [s|e]; simpl;
      [|reflexivity].
    replace (pre ++ s :: repeat num0 (length cs) ++ post)
      with ((pre ++ [s]) ++ repeat num0 (length cs) ++ post)
      by (rewrite <- app_assoc; reflexivity).
    replace (S (length pre)) with (length (pre ++ [s]))
      by (rewrite length_app; simpl; lia).
    rewrite IH.
    destruct (mapM (row_value rotate ts) cs) as [rows|e]; simpl; [|reflexivity].
    rewrite <- app_assoc; reflexivity.
Qed.

(** The residual function of a solver that satisfies its class invariant:
    the poses are built, then every constraint yields its row. *)
Lemma _cost_rows (self : ConstraintSolver T) (x : list T) :
  nc self = length (constraints self) ->
  _cost rotate self x =
  (ts <- mapM (build_slice x) (seq 0 (ne self)) ;;
   mapM (row_value rotate ts) (constraints self)).
Proof.
  intros Hnc; unfold _cost.
  destruct (mapM (build_slice x) (seq 0 (ne self))) as [ts|e]; simpl; [|reflexivity].
  rewrite Hnc.
  pose proof (constraints_loop_rows ts (constraints self) [] []) as H.
  simpl in H; rewrite app_nil_r in H; rewrite H.
  destruct (mapM (row_value rotate ts) (constraints self)) as [rows|e]; simpl;
    [rewrite app_nil_r|]; reflexivity.
Qed.

(** A block of six parameters inside the vector is unpacked as it stands. *)
Lemma build_slice_in_range (x : list T) (n i : nat) :
  length x = (6 * n)%nat -> (i < n)%nat -> build_slice x i = Ok (pose_at x i).
Proof.
  intros Hx Hi; unfold build_slice, py_slice.
  rewrite !slice_bound_in_range by lia.
  replace (Z.to_nat (6 * (Z.of_nat i + 1)) - Z.to_nat (6 * Z.of_nat i))%nat with 6%nat by lia.
  replace (Z.to_nat (6 * Z.of_nat i)) with (6 * i)%nat by lia.
  rewrite (firstn_six _ num0) by (rewrite length_skipn; lia).
  rewrite !nth_skipn_add.
  unfold pose_at; rewrite Nat.add_0_r; reflexivity.
Qed.

Lemma transforms_in_range (x : list T) (n : nat) :
  length x = (6 * n)%nat ->
  mapM (build_slice x) (seq 0 n) = Ok (map (pose_at x) (seq 0 n)).
Proof.
  intros Hx.
  rewrite <- mapM_pure.
  apply mapM_ext_in; intros i Hi.
  apply in_seq in Hi.
  apply build_slice_in_range with (n := n); [exact Hx | lia].
Qed.

Lemma transforms_getitem (x : list T) (n : nat) (k : Z) :
  index_in_range n k ->
  py_getitem (map (pose_at x) (seq 0 n)) k = Ok (pose_at x (Z.to_nat k)).
Proof.
  intros Hk; unfold index_in_range in Hk.
  rewrite py_getitem_in_range with (d := pose_at x 0)
    by (rewrite length_map, length_seq; exact Hk).
  rewrite (map_nth (pose_at x) (seq 0 n) 0%nat), seq_nth by lia.
  reflexivity.
Qed.

End LoopFacts.

(* ================================================================== *)
(** ** The pose codec *)

Section CodecFacts.

Local Open Scope R_scope.

(** *** The kernel: the quaternion reported of the matrix of a quaternion *)

Lemma nltb_R_true (x y : R) : x < y -> nltb x y = true.
Proof.
  intros H; simpl; destruct (Rlt_dec x y) as [_|E]; [reflexivity | contradiction].
Qed.

Lemma nltb_R_false (x y : R) : ~ x < y -> nltb x y = false.
Proof.
  intros H; simpl; destruct (Rlt_dec x y) as [E|_]; [contradiction | reflexivity].
Qed.

(** The matrix of a quaternion that is not zero is the rotation matrix of
    the quaternion divided by its length. *)
Lemma GetMatrix_entries (x y z w : R) :
  let N := x * x + y * y + z * z + w * w in
  N <> 0 ->
  GetMatrix (mk_Quaternion x y z w) =
  mk_Mat (1 - 2 * (y * y + z * z) / N) (2 * (x * y - w * z) / N) (2 * (x * z + w * y) / N)
         (2 * (x * y + w * z) / N) (1 - 2 * (x * x + z * z) / N) (2 * (y * z - w * x) / N)
         (2 * (x * z - w * y) / N) (2 * (y * z + w * x) / N) (1 - 2 * (x * x + y * y) / N).
Proof.
  intros N HN; unfold GetMatrix, SquareNorm; simpl; fold N.
  f_equal; field; exact HN.
Qed.

(** In each branch of [SetMatrix] the four components, before scaling, have
    squares that add up to four times the pivot [P]; scaled by
    [1 / (2 √P)] they make a quaternion of norm 1 with a positive pivot. *)
Lemma Scale_unit (A B C D P : R) :
  0 < P -> A * A + B * B + C * C + D * D = 4 * P ->
  SquareNorm (Scale (mk_Quaternion A B C D) (1 / 2 / sqrt P)) = 1.
Proof.
  intros HP Hid.
  assert (Hs : sqrt P * sqrt P = P) by (apply sqrt_sqrt; lra).
  assert (Hs0 : 0 < sqrt P) by (apply sqrt_lt_R0; exact HP).
  unfold SquareNorm, Scale; simpl.
  set (s := sqrt P) in *.
  transitivity ((A * A + B * B + C * C + D * D) * / (4 * (s * s))).
  - field; lra.
  - rewrite Hid, Hs; field; lra.
Qed.

Lemma pivot_positive (P : R) : 0 < P -> 0 < P * (1 / 2 / sqrt P).
Proof.
  intros HP.
  assert (Hs0 : 0 < sqrt P) by (apply sqrt_lt_R0; exact HP).
  apply Rmult_lt_0_compat; [exact HP|].
  apply Rdiv_lt_0_compat; lra.
Qed.

Lemma unit_w_above_minus_one (q : gp_Quaternion R) :
  SquareNorm q = 1 -> (0 < qW q \/ 0 < qX q \/ 0 < qY q \/ 0 < qZ q) ->
  0 < 1 + qW q.
Proof.
  destruct q as [x y z w]; unfold SquareNorm; simpl.
  intros Hu [H|[H|[H|H]]]; nra.
Qed.

Lemma Scale_pivot (A B C D P : R) :
  0 < P -> A * A + B * B + C * C + D * D = 4 * P ->
  P = D \/ P = A \/ P = B \/ P = C ->
  SquareNorm (Scale (mk_Quaternion A B C D) (1 / 2 / sqrt P)) = 1 /\
  0 < 1 + qW (Scale (mk_Quaternion A B C D) (1 / 2 / sqrt P)).
Proof.
  intros HP Hid Hpiv.
  pose proof (Scale_unit A B C D P HP Hid) as Hu.
  pose proof (pivot_positive P HP) as Hpos.
  split; [exact Hu|].
  apply unit_w_above_minus_one; [exact Hu|].
  unfold Scale; cbn [qX qY qZ qW].
  destruct Hpiv as [E|[E|[E|E]]]; rewrite <- E; auto.
Qed.

Ltac case_nltb H :=
  match goal with
  | |- context [nltb ?a ?b] =>
      destruct (Rlt_dec a b) as [H|H];
      [rewrite (nltb_R_true a b H) | rewrite (nltb_R_false a b H)]
  end.

(** What the kernel reports of the matrix of a quaternion that is not
    zero: a quaternion of norm 1 with [w > -1]. *)
Lemma SetMatrix_GetMatrix (q : gp_Quaternion R) :
  SquareNorm q <> 0 ->
  SquareNorm (SetMatrix (GetMatrix q)) = 1 /\ 0 < 1 + qW (SetMatrix (GetMatrix q)).
Proof.
  destruct q as [x y z w]; unfold SquareNorm at 1; cbn [qX qY qZ qW].
  change (x *! x +! y *! y +! z *! z +! w *! w) with (x * x + y * y + z * z + w * w).
  intros HN; rewrite GetMatrix_entries by exact HN.
  set (N := x * x + y * y + z * z + w * w) in *.
  assert (HNpos : 0 < N) by (unfold N in *; nra).
  assert (Hn : 0 < / N) by (apply Rinv_0_lt_compat; exact HNpos).
  match goal with |- context [SetMatrix ?M] => set (m := M) end.
  assert (E12 : m11 m - m22 m = 2 * (x * x - y * y) * / N)
    by (unfold m; cbn [m11 m22]; field; lra).
  assert (E13 : m11 m - m33 m = 2 * (x * x - z * z) * / N)
    by (unfold m; cbn [m11 m33]; field; lra).
  assert (E23 : m22 m - m33 m = 2 * (y * y - z * z) * / N)
    by (unfold m; cbn [m22 m33]; field; lra).
  assert (Etr : m11 m + m22 m + m33 m + 1 = 4 * (w * w) * / N)
    by (unfold m, N; cbn [m11 m22 m33]; field; exact HN).
  assert (P2 : 1 + m11 m - m22 m - m33 m = 4 * (x * x) * / N)
    by (unfold m, N; cbn [m11 m22 m33]; field; exact HN).
  assert (P3 : 1 + m22 m - m11 m - m33 m = 4 * (y * y) * / N)
    by (unfold m, N; cbn [m11 m22 m33]; field; exact HN).
  assert (P4 : 1 + m33 m - m11 m - m22 m = 4 * (z * z) * / N)
    by (unfold m, N; cbn [m11 m22 m33]; field; exact HN).
  unfold SetMatrix, Trace.
  change (@num0 R R_arith) with 0; change (@num1 R R_arith) with 1.
  case_nltb Htr.
  - refine (Scale_pivot _ _ _ _ _ _ _ _).
    + cbn [qW]; simpl in Htr |- *; lra.
    + unfold m, N; simpl; field; exact HN.
    + left; reflexivity.
  - case_nltb H21; [case_nltb H31|]; cbn [andb].
    + refine (Scale_pivot _ _ _ _ _ _ _ _).
      * cbn [qX]; simpl in *. rewrite P2. nra.
      * unfold m, N; simpl; field; exact HN.
      * right; left; reflexivity.
    + assert (Hx : ~ m22 m < m11 m \/ ~ m33 m < m11 m) by (right; exact H31).
      assert (Hxx : x * x <= y * y \/ x * x <= z * z)
        by (destruct Hx as [Hx|Hx]; [left | right]; nra).
      case_nltb H32.
      * refine (Scale_pivot _ _ _ _ _ _ _ _).
        -- cbn [qY]; simpl in *. rewrite P3. nra.
        -- unfold m, N; simpl; field; exact HN.
        -- right; right; left; reflexivity.
      * refine (Scale_pivot _ _ _ _ _ _ _ _).
        -- cbn [qZ]; simpl in *. rewrite P4.
           assert (Hyz : y * y <= z * z) by nra.
           assert (Hz : 0 < z * z).
           { destruct (Rlt_dec 0 (z * z)) as [Hz|Hz]; [exact Hz | exfalso].
             assert (Hz0 : z * z = 0) by nra.
             assert (Hy0 : y * y = 0) by nra.
             assert (Hx0 : x * x = 0) by (destruct Hxx; nra).
             assert (HnN : / N * N = 1) by (apply Rinv_l; lra).
             unfold N in HnN; nra. }
           nra.
        -- unfold m, N; simpl; field; exact HN.
        -- right; right; right; reflexivity.
    + assert (Hx : ~ m22 m < m11 m \/ ~ m33 m < m11 m) by (left; exact H21).
      assert (Hxx : x * x <= y * y \/ x * x <= z * z)
        by (destruct Hx as [Hx|Hx]; [left | right]; nra).
      case_nltb H32.
      * refine (Scale_pivot _ _ _ _ _ _ _ _).
        -- cbn [qY]; simpl in *. rewrite P3. nra.
        -- unfold m, N; simpl; field; exact HN.
        -- right; right; left; reflexivity.
      * refine (Scale_pivot _ _ _ _ _ _ _ _).
        -- cbn [qZ]; simpl in *. rewrite P4.
           assert (Hyz : y * y <= z * z) by nra.
           assert (Hz : 0 < z * z).
           { destruct (Rlt_dec 0 (z * z)) as [Hz|Hz]; [exact Hz | exfalso].
             assert (Hz0 : z * z = 0) by nra.
             assert (Hy0 : y * y = 0) by nra.
             assert (Hx0 : x * x = 0) by (destruct Hxx; nra).
             assert (HnN : / N * N = 1) by (apply Rinv_l; lra).
             unfold N in HnN; nra. }
           nra.
        -- unfold m, N; simpl; field; exact HN.
        -- right; right; right; reflexivity.
Qed.

(** *** The quaternion [_build_transform] builds *)

Lemma neqb_R_same (x y : R) : x = y -> neqb x y = true.
Proof.
  intros ->; simpl; destruct (Req_dec_T y y) as [_|H]; [reflexivity | contradiction].
Qed.

Lemma neqb_R_diff (x y : R) : x <> y -> neqb x y = false.
Proof.
  intros H; simpl; destruct (Req_dec_T x y) as [E|_]; [contradiction | reflexivity].
Qed.

Lemma sq_sum_nonneg (a b c : R) : 0 <= a * a + b * b + c * c.
Proof. nra. Qed.

Lemma sq_sum_zero (a b c : R) : a * a + b * b + c * c = 0 -> a = 0 /\ b = 0 /\ c = 0.
Proof. intros H; repeat split; nra. Qed.

(** The quaternion of [_build_transform] away from the origin. *)
Lemma build_quaternion_away (a b c : R) :
  let m := a * a + b * b + c * c in
  m <> 0 ->
  build_quaternion a b c =
  mk_Quaternion (2 * a / m) (2 * b / m) (2 * c / m) ((1 - m) / (m + 1)).
Proof.
  intros m Hm; unfold build_quaternion, sq; simpl.
  fold m; destruct (Req_dec_T m 0) as [E|_]; [contradiction | reflexivity].
Qed.

Lemma build_quaternion_origin :
  build_quaternion 0 0 0 = mk_Quaternion 0 0 0 1.
Proof.
  unfold build_quaternion, sq; simpl.
  destruct (Req_dec_T (0 * 0 + 0 * 0 + 0 * 0) 0) as [_|E]; [|exfalso; lra].
  simpl; f_equal; lra.
Qed.

(** Away from the origin the quaternion is longer than a unit quaternion:
    [|q|² - 1 = 4 (1 + 2m) / (m (1 + m)²)]. *)
Lemma build_quaternion_norm_excess (a b c : R) :
  let m := a * a + b * b + c * c in
  m <> 0 ->
  SquareNorm (build_quaternion a b c) =
  1 + 4 * (1 + 2 * m) / (m * ((1 + m) * (1 + m))).
Proof.
  intros m Hm.
  rewrite build_quaternion_away by exact Hm; fold m.
  unfold SquareNorm; simpl.
  pose proof (sq_sum_nonneg a b c) as Hge; fold m in Hge.
  assert (Hm1 : m + 1 <> 0) by lra.
  assert (Hm2 : 1 + m <> 0) by lra.
  transitivity (4 * (a * a + b * b + c * c) / (m * m)
                + (1 - m) * (1 - m) / ((m + 1) * (m + 1))).
  - field; split; assumption.
  - fold m. field; split; assumption.
Qed.

Lemma build_quaternion_norm_ge_1 (a b c : R) :
  1 <= SquareNorm (build_quaternion a b c).
Proof.
  destruct (Req_dec_T (a * a + b * b + c * c) 0) as [E|Hm].
  - apply sq_sum_zero in E; destruct E as (-> & -> & ->).
    rewrite build_quaternion_origin; unfold SquareNorm; simpl; lra.
  - rewrite build_quaternion_norm_excess by exact Hm.
    pose proof (sq_sum_nonneg a b c) as Hge.
    set (m := a * a + b * b + c * c) in *.
    assert (Hpos : 0 < 4 * (1 + 2 * m) / (m * ((1 + m) * (1 + m)))).
    { apply Rdiv_lt_0_compat; [lra|].
      apply Rmult_lt_0_compat; [lra|].
      apply Rmult_lt_0_compat; lra. }
    lra.
Qed.

(** What [_build_transform] returns: the matrix of the quaternion it
    builds, and no translation. *)
Lemma build_transform_parts {T : Type} `{Arith T} (x y z a b c : T) :
  _build_transform x y z a b c =
  mk_Trsf (GetMatrix (build_quaternion a b c)) (mk_Vec num0 num0 num0).
Proof. reflexivity. Qed.

(** The quaternion the kernel reports of a pose [_build_transform]
    returned has norm 1 and [w > -1]. *)
Lemma build_transform_reported (x y z a b c : R) :
  SquareNorm (GetRotation (_build_transform x y z a b c)) = 1 /\
  0 < 1 + qW (GetRotation (_build_transform x y z a b c)).
Proof.
  rewrite build_transform_parts; unfold GetRotation; cbn [HVectorialPart].
  apply SetMatrix_GetMatrix.
  pose proof (build_quaternion_norm_ge_1 a b c); lra.
Qed.

(** [_locToDOF6] divides by [1 + w] and by nothing else. *)
Lemma _locToDOF6_singular {T : Type} `{Arith T} (loc : Location T) :
  singular loc = true -> _locToDOF6 loc = Raise ZeroDivisionError.
Proof.
  unfold singular, _locToDOF6, py_truediv; intros ->; reflexivity.
Qed.

Lemma _locToDOF6_regular {T : Type} `{Arith T} (loc : Location T) :
  singular loc = false -> exists d, _locToDOF6 loc = Ok d.
Proof.
  unfold singular, _locToDOF6, py_truediv; intros ->; simpl; eexists; reflexivity.
Qed.

Lemma _locToDOF6_R (loc : Location R) :
  let v := TranslationPart (Transformation (wrapped loc)) in
  let q := GetRotation (Transformation (wrapped loc)) in
  1 + qW q <> 0 ->
  _locToDOF6 loc =
  Ok (vX v, vY v, vZ v, qX q / (1 + qW q), qY q / (1 + qW q), qZ q / (1 + qW q)).
Proof.
  intros v q Hw; unfold _locToDOF6, py_truediv; fold v q.
  rewrite neqb_R_diff by exact Hw.
  assert (Hhalf : forall t, ((1 - qW q) / (1 + qW q) + 1) * t / 2 = t / (1 + qW q))
    by (intros t; field; exact Hw).
  cbn [bind]; simpl; rewrite !Hhalf; reflexivity.
Qed.

(** The poses of the kernel are never singular. *)
Lemma kernel_pose_reported (loc : Location R) :
  kernel_pose loc ->
  SquareNorm (GetRotation (Transformation (wrapped loc))) = 1 /\
  0 < 1 + qW (GetRotation (Transformation (wrapped loc))).
Proof.
  intros (q & Hq & Hm); unfold GetRotation, Transformation; rewrite Hm.
  apply SetMatrix_GetMatrix; exact Hq.
Qed.

Lemma kernel_pose_regular (loc : Location R) :
  kernel_pose loc -> singular loc = false.
Proof.
  intros Hk; destruct (kernel_pose_reported loc Hk) as [_ Hw].
  unfold singular; apply neqb_R_diff; simpl; lra.
Qed.

(** *** The sample pose: translation (1, 2, 3), quaternion (3/5, 0, 0, 4/5) *)

Lemma sqrt_of_square (s : R) : 0 <= s -> sqrt (s * s) = s.
Proof. intros H; apply sqrt_square; exact H. Qed.

Lemma sample_matrix :
  GetMatrix (mk_Quaternion (3 / 5) 0 0 (4 / 5)) =
  mk_Mat 1 0 0 0 (7 / 25) (- (24 / 25)) 0 (24 / 25) (7 / 25).
Proof.
  rewrite GetMatrix_entries by lra; f_equal; field.
Qed.

Lemma sample_reported :
  SetMatrix (mk_Mat 1 0 0 0 (7 / 25) (- (24 / 25)) 0 (24 / 25) (7 / 25)) =
  mk_Quaternion (3 / 5) 0 0 (4 / 5).
Proof.
  unfold SetMatrix, Trace; cbn [m11 m12 m13 m21 m22 m23 m31 m32 m33].
  change (@num0 R R_arith) with 0; change (@num1 R R_arith) with 1.
  case_nltb Htr; [|exfalso; simpl in Htr; lra].
  unfold Scale; simpl.
  replace (1 + 7 / 25 + 7 / 25 + 1) with (8 / 5 * (8 / 5)) by field.
  rewrite sqrt_of_square by lra.
  f_equal; field.
Qed.

Lemma sample_pose_reported (v : gp_Vec R) :
  GetRotation (Transformation (wrapped (pose_of v (mk_Quaternion (3 / 5) 0 0 (4 / 5))))) =
  mk_Quaternion (3 / 5) 0 0 (4 / 5).
Proof.
  unfold pose_of, Transformation, GetRotation; cbn [wrapped HVectorialPart].
  rewrite sample_matrix; exact sample_reported.
Qed.

Lemma sample_decoded :
  _locToDOF6 (pose_of (mk_Vec 1 2 3) (mk_Quaternion (3 / 5) 0 0 (4 / 5))) =
  Ok (1, 2, 3, 1 / 3, 0, 0).
Proof.
  rewrite _locToDOF6_R;
    unfold pose_of, Transformation, GetRotation; cbn [wrapped HVectorialPart TranslationPart];
    rewrite sample_matrix, sample_reported; cbn [qX qY qZ qW vX vY vZ].
  - replace (3 / 5 / (1 + 4 / 5)) with (1 / 3) by field.
    replace (0 / (1 + 4 / 5)) with 0 by field.
    reflexivity.
  - lra.
Qed.

Lemma sample_rebuilt_quaternion :
  build_quaternion (1 / 3) 0 0 = mk_Quaternion 6 0 0 (4 / 5).
Proof.
  rewrite build_quaternion_away by lra; f_equal; field.
Qed.

Lemma sample_rebuilt_matrix :
  GetMatrix (mk_Quaternion 6 0 0 (4 / 5)) =
  mk_Mat 1 0 0 0 (- (221 / 229)) (- (60 / 229)) 0 (60 / 229) (- (221 / 229)).
Proof.
  rewrite GetMatrix_entries by lra; f_equal; field.
Qed.

Lemma sample_rebuilt_reported :
  SetMatrix (mk_Mat 1 0 0 0 (- (221 / 229)) (- (60 / 229)) 0 (60 / 229) (- (221 / 229))) =
  mk_Quaternion (15 / sqrt 229) 0 0 (2 / sqrt 229).
Proof.
  unfold SetMatrix, Trace; cbn [m11 m12 m13 m21 m22 m23 m31 m32 m33].
  change (@num0 R R_arith) with 0; change (@num1 R R_arith) with 1.
  case_nltb Htr; [exfalso; simpl in Htr; lra|].
  case_nltb H21; [|exfalso; lra].
  cbn [andb]; unfold Scale; simpl.
  assert (Hs : sqrt 229 * sqrt 229 = 229) by (apply sqrt_sqrt; lra).
  assert (Hs0 : 0 < sqrt 229) by (apply sqrt_lt_R0; lra).
  set (s := sqrt 229) in *.
  assert (E : 1 + 1 - - (221 / 229) - - (221 / 229) = 30 / s * (30 / s)).
  { transitivity (900 / (s * s)); [rewrite Hs; field | field; lra]. }
  rewrite E, sqrt_of_square by (apply Rlt_le, Rdiv_lt_0_compat; lra).
  f_equal; try (field; lra).
  rewrite <- Hs; field; lra.
Qed.

(** The round trip of the sample pose. *)
Lemma round_trip_of_sample_pose :
  encode_decode (pose_of (mk_Vec 1 2 3) (mk_Quaternion (3 / 5) 0 0 (4 / 5))) =
  Ok (mk_Location
        (mk_Trsf
           (mk_Mat 1 0 0 0 (- (221 / 229)) (- (60 / 229)) 0 (60 / 229) (- (221 / 229)))
           (mk_Vec 0 0 0))).
Proof.
  unfold encode_decode; rewrite sample_decoded; cbn [bind].
  rewrite build_transform_parts, sample_rebuilt_quaternion, sample_rebuilt_matrix.
  reflexivity.
Qed.

End CodecFacts.

(* ================================================================== *)
(** ** Properties of the pose codec *)

Section CodecClaims.

Local Open Scope R_scope.

(** C1 (evaluation of the code where the claim fails).  The pose with
    translation (1, 2, 3) and the unit quaternion (3/5, 0, 0, 4/5), a
    rotation of about 74 degrees with [w > -1], is decoded into
    (1, 2, 3, 1/3, 0, 0) and encoded again into a pose with translation
    (0, 0, 0), because [SetRotation] follows [SetTranslation] and resets
    it, and with the rotation (15, 0, 0, 2) / √229, about 165 degrees,
    because the quaternion built from a = 1/3 is (6, 0, 0, 4/5) where the
    inverse of the decoding is (6/10, 0, 0, 8/10). *)
Theorem encode_decode_changes_rotation :
  let q := mk_Quaternion (3 / 5) 0 0 (4 / 5) in
  let pose := pose_of (mk_Vec 1 2 3) q in
  TranslationPart (Transformation (wrapped pose)) = mk_Vec 1 2 3 /\
  GetRotation (Transformation (wrapped pose)) = q /\
  SquareNorm q = 1 /\ -1 < qW q /\
  _locToDOF6 pose = Ok (1, 2, 3, 1 / 3, 0, 0) /\
  build_quaternion (1 / 3) 0 0 = mk_Quaternion 6 0 0 (4 / 5) /\
  exists pose',
    encode_decode pose = Ok pose' /\
    TranslationPart (Transformation (wrapped pose')) = mk_Vec 0 0 0 /\
    GetRotation (Transformation (wrapped pose')) =
      mk_Quaternion (15 / sqrt 229) 0 0 (2 / sqrt 229).
Proof.
  cbv zeta.
  split; [reflexivity|].
  split.
  { unfold pose_of, Transformation, GetRotation; cbn [wrapped HVectorialPart].
    rewrite sample_matrix; exact sample_reported. }
  split; [unfold SquareNorm; simpl; field|].
  split; [simpl; lra|].
  split; [exact sample_decoded|].
  split; [exact sample_rebuilt_quaternion|].
  eexists; split; [exact round_trip_of_sample_pose|].
  split; [reflexivity|].
  unfold Transformation, GetRotation; cbn [wrapped HVectorialPart].
  exact sample_rebuilt_reported.
Qed.

(** C4, in exact arithmetic.  [_build_transform] hands the kernel the
    quaternion (2a/m, 2b/m, 2c/m, (1 - m)/(m + 1)), or (0, 0, 0, 1) when
    [m = a² + b² + c²] is zero; the transform it returns holds the rotation
    matrix of that quaternion, in which its length is divided out, and the
    quaternion the kernel reports of the returned pose has norm 1. *)
Theorem build_transform_reports_unit_quaternion (x y z a b c : R) :
  let m := a * a + b * b + c * c in
  (m <> 0 ->
   build_quaternion a b c =
   mk_Quaternion (2 * a / m) (2 * b / m) (2 * c / m) ((1 - m) / (m + 1))) /\
  (m = 0 -> build_quaternion a b c = mk_Quaternion 0 0 0 1) /\
  HVectorialPart (_build_transform x y z a b c) = GetMatrix (build_quaternion a b c) /\
  SquareNorm (GetRotation (_build_transform x y z a b c)) = 1.
Proof.
  intros m.
  split; [intros Hm; apply build_quaternion_away; exact Hm|].
  split.
  { intros Hm; apply sq_sum_zero in Hm; destruct Hm as (-> & -> & ->).
    exact build_quaternion_origin. }
  split; [reflexivity|].
  apply build_transform_reported.
Qed.

(** C4 (counterexample).  At [(a, b, c) = (1, 0, 0)] the quaternion of the
    formula is (2, 0, 0, 0), of squared norm 4, in exact arithmetic and in
    binary64 alike.  At the finite [a = 2^600] the square overflows in
    binary64, [m] is infinite, the [w] component is infinity over infinity,
    and the norm of the quaternion the kernel reports of the returned pose
    is not a number. *)
Lemma build_transform_quaternion_not_unit :
  build_quaternion 1 0 0 = mk_Quaternion 2 0 0 0 /\
  SquareNorm (build_quaternion 1 0 0) = 4 /\
  build_quaternion 1%float 0%float 0%float =
    mk_Quaternion 2%float 0%float 0%float 0%float /\
  SquareNorm (build_quaternion 1%float 0%float 0%float) = 4%float /\
  PrimFloat.is_nan
    (SquareNorm (GetRotation
       (_build_transform 0%float 0%float 0%float 0x1p600%float 0%float 0%float))) = true.
Proof.
  assert (Hq : build_quaternion 1 0 0 = mk_Quaternion 2 0 0 0).
  { rewrite build_quaternion_away by lra.
    f_equal; field. }
  split; [exact Hq|].
  split; [rewrite Hq; unfold SquareNorm; simpl; lra|].
  split; [vm_compute; reflexivity|].
  split; vm_compute; reflexivity.
Qed.

(** X1.  [encode(x, y, z, 0, 0, 0)] is the identity transform whatever
    [x], [y] and [z] are: the rotation is the identity, and the translation
    that [SetTranslation] stored is reset by [SetRotation]. *)
Theorem build_transform_at_origin (x y z : R) :
  _build_transform x y z 0 0 0 =
  mk_Trsf (mk_Mat 1 0 0 0 1 0 0 0 1) (mk_Vec 0 0 0).
Proof.
  rewrite build_transform_parts, build_quaternion_origin.
  rewrite GetMatrix_entries by lra.
  f_equal; f_equal; field.
Qed.

(** X2.  The quaternion [_build_transform] hands to the kernel has norm 1
    at the origin and nowhere else. *)
Theorem build_transform_unit_iff_origin (x y z a b c : R) :
  _build_transform x y z a b c =
    SetRotation (SetTranslation gp_Trsf_new (mk_Vec x y z)) (build_quaternion a b c) /\
  (SquareNorm (build_quaternion a b c) = 1 <-> (a = 0 /\ b = 0 /\ c = 0)).
Proof.
  split; [reflexivity|].
  split.
  - intros Hn.
    destruct (Req_dec_T (a * a + b * b + c * c) 0) as [E|Hm];
      [apply sq_sum_zero; exact E|].
    exfalso.
    rewrite build_quaternion_norm_excess in Hn by exact Hm.
    pose proof (sq_sum_nonneg a b c) as Hge.
    set (m := a * a + b * b + c * c) in *.
    assert (Hpos : 0 < 4 * (1 + 2 * m) / (m * ((1 + m) * (1 + m)))).
    { apply Rdiv_lt_0_compat; [lra|].
      apply Rmult_lt_0_compat; [lra|].
      apply Rmult_lt_0_compat; lra. }
    lra.
  - intros (-> & -> & ->).
    rewrite build_quaternion_origin.
    unfold SquareNorm; simpl; lra.
Qed.



End CodecClaims.

(* ================================================================== *)
(** ** The sparsity pattern *)

Section SparsityFacts.

Context {T : Type} `{AT : Arith T}.

Lemma assign_row_slice_middle (pre : list (list T)) (row : list T)
    (post : list (list T)) (lo hi : Z) (v : T) :
  assign_row_slice (pre ++ row :: post) (length pre) lo hi v =
  Ok (pre ++ assign_slice row lo hi v :: post).
Proof.
  unfold assign_row_slice.
  rewrite nth_error_middle; apply py_setitem_middle.
Qed.

(** The loop writes row [i] from the [i]-th key and from nothing else. *)
Lemma sparsity_loop_rows (n : nat) (cs : Constraints T) (pre post : list (list T)) :
  sparsity_loop (pre ++ repeat (repeat num0 (6 * n)) (length cs) ++ post)
                (length pre) cs =
  Ok (pre ++ map (sparsity_row n) cs ++ post).
Proof.
  revert pre; induction cs as [|[[k1 k2] c] cs IH]; intros pre; simpl.
  - reflexivity.
  - rewrite assign_row_slice_middle; simpl.
    rewrite assign_row_slice_middle; simpl.
    set (row := assign_slice
                  (assign_slice (repeat num0 (6 * n)) (6 * k1) (6 * (k1 + 1)) num1)
                  (6 * k2) (6 * (k2 + 1)) num1).
    replace (pre ++ row :: repeat (repeat num0 (6 * n)) (length cs) ++ post)
      with ((pre ++ [row]) ++ repeat (repeat num0 (6 * n)) (length cs) ++ post)
      by (rewrite <- app_assoc; reflexivity).
    replace (S (length pre)) with (length (pre ++ [row]))
      by (rewrite length_app; simpl; lia).
    rewrite IH, <- app_assoc; reflexivity.
Qed.

Lemma _jacobianSparsity_rows (self : ConstraintSolver T) :
  nc self = length (constraints self) ->
  _jacobianSparsity self = Ok (map (sparsity_row (ne self)) (constraints self)).
Proof.
  intros Hnc; unfold _jacobianSparsity; rewrite Hnc.
  pose proof (sparsity_loop_rows (ne self) (constraints self) [] []) as H.
  simpl in H; rewrite !app_nil_r in H; exact H.
Qed.

Lemma sparsity_row_length (n : nat) (c : (Z * Z) * Constraint T) :
  length (sparsity_row n c) = (6 * n)%nat.
Proof.
  destruct c as [[k1 k2] c]; unfold sparsity_row.
  rewrite !assign_slice_length; apply repeat_length.
Qed.

(** Inside the matrix, the slice [6k : 6(k+1)] is the block of entity [k]. *)
Lemma block_slice (n : nat) (k : Z) (j : nat) :
  index_in_range n k ->
  ((slice_bound (6 * n) (6 * k) <=? j)
   && (j <? slice_bound (6 * n) (6 * (k + 1))))%nat = in_block k j.
Proof.
  unfold index_in_range, in_block; intros Hk.
  rewrite !slice_bound_in_range by lia.
  apply Bool.eq_iff_eq_true.
  rewrite !andb_true_iff, Nat.leb_le, Nat.ltb_lt, Z.leb_le, Z.ltb_lt; lia.
Qed.

Lemma sparsity_row_nth (n : nat) (k1 k2 : Z) (c : Constraint T) (j : nat) :
  index_in_range n k1 -> index_in_range n k2 -> (j < 6 * n)%nat ->
  nth j (sparsity_row n ((k1, k2), c)) num0 =
  if in_block k1 j || in_block k2 j then num1 else num0.
Proof.
  intros H1 H2 Hj; unfold sparsity_row.
  rewrite assign_slice_nth by (rewrite assign_slice_length, repeat_length; exact Hj).
  rewrite assign_slice_length, repeat_length, (block_slice n k2 j H2).
  rewrite assign_slice_nth by (rewrite repeat_length; exact Hj).
  rewrite repeat_length, (block_slice n k1 j H1), nth_repeat.
  destruct (in_block k1 j), (in_block k2 j); reflexivity.
Qed.

End SparsityFacts.

Section RowSums.

Local Open Scope R_scope.

Lemma sum_list_app (l1 l2 : list R) :
  sum_list (l1 ++ l2) = sum_list l1 + sum_list l2.
Proof.
  induction l1 as [|a l1 IH]; simpl; [lra | rewrite IH; lra].
Qed.

Lemma sum_list_map_const {A : Type} (f : A -> R) (c : R) (l : list A) :
  (forall a, In a l -> f a = c) -> sum_list (map f l) = INR (length l) * c.
Proof.
  induction l as [|a l IH]; intros H.
  - simpl; lra.
  - change (sum_list (map f (a :: l))) with (f a + sum_list (map f l)).
    rewrite IH by (intros b Hb; apply H; right; exact Hb).
    rewrite (H a (or_introl eq_refl)).
    change (length (a :: l)) with (S (length l)); rewrite S_INR; lra.
Qed.

Lemma sum_list_map_plus {A : Type} (f g : A -> R) (l : list A) :
  sum_list (map (fun a => f a + g a) l) = sum_list (map f l) + sum_list (map g l).
Proof.
  induction l as [|a l IH]; simpl; [lra | rewrite IH; lra].
Qed.

(** A block inside the row holds six columns. *)
Lemma sum_block_indicator (n : nat) (k : Z) :
  index_in_range n k ->
  sum_list (map (block_indicator k) (seq 0 (6 * n))) = 6.
Proof.
  unfold index_in_range; intros Hk.
  set (s := Z.to_nat (6 * k)).
  replace (6 * n)%nat with (s + (6 + (6 * n - s - 6)))%nat by lia.
  rewrite !seq_app, !map_app, !sum_list_app.
  rewrite (sum_list_map_const (block_indicator k) 0),
          (sum_list_map_const (block_indicator k) 1),
          (sum_list_map_const (block_indicator k) 0).
  - rewrite !length_seq; simpl; lra.
  - intros j Hj; apply in_seq in Hj; unfold block_indicator, in_block.
    destruct (Z.leb_spec (6 * k) (Z.of_nat j)); [|reflexivity].
    destruct (Z.ltb_spec (Z.of_nat j) (6 * k + 6)); [lia | reflexivity].
  - intros j Hj; apply in_seq in Hj; unfold block_indicator, in_block.
    destruct (Z.leb_spec (6 * k) (Z.of_nat j)); [|lia].
    destruct (Z.ltb_spec (Z.of_nat j) (6 * k + 6)); [reflexivity | lia].
  - intros j Hj; apply in_seq in Hj; unfold block_indicator, in_block.
    destruct (Z.leb_spec (6 * k) (Z.of_nat j)); [lia | reflexivity].
Qed.

Lemma sparsity_row_as_map (n : nat) (k1 k2 : Z) (c : Constraint R) :
  index_in_range n k1 -> index_in_range n k2 ->
  sparsity_row n ((k1, k2), c) =
  map (fun j => if in_block k1 j || in_block k2 j then 1 else 0) (seq 0 (6 * n)).
Proof.
  intros H1 H2.
  set (f := fun j : nat => if in_block k1 j || in_block k2 j then 1 else 0).
  apply (nth_ext _ _ 0 (f 0%nat)).
  - rewrite sparsity_row_length, length_map, length_seq; reflexivity.
  - intros j Hj; rewrite sparsity_row_length in Hj.
    pose proof (sparsity_row_nth n k1 k2 c j H1 H2 Hj) as E.
    change (@num0 R R_arith) with 0 in E; change (@num1 R R_arith) with 1 in E.
    rewrite E, map_nth, seq_nth by exact Hj.
    reflexivity.
Qed.

Lemma sparsity_row_sum (n : nat) (k1 k2 : Z) (c : Constraint R) :
  index_in_range n k1 -> index_in_range n k2 ->
  sum_list (sparsity_row n ((k1, k2), c)) = if (k1 =? k2)%Z then 6 else 12.
Proof.
  intros H1 H2; rewrite sparsity_row_as_map by assumption.
  destruct (Z.eqb_spec k1 k2) as [->|Hne].
  - rewrite <- (sum_block_indicator n k2 H2).
    f_equal; apply map_ext; intros j; unfold block_indicator.
    destruct (in_block k2 j); reflexivity.
  - replace 12 with (6 + 6) by lra.
    rewrite <- (sum_block_indicator n k1 H1) at 1.
    rewrite <- (sum_block_indicator n k2 H2), <- sum_list_map_plus.
    f_equal; apply map_ext; intros j; unfold block_indicator, in_block.
    destruct (Z.leb_spec (6 * k1) (Z.of_nat j)), (Z.ltb_spec (Z.of_nat j) (6 * k1 + 6)),
             (Z.leb_spec (6 * k2) (Z.of_nat j)), (Z.ltb_spec (Z.of_nat j) (6 * k2 + 6));
      simpl; try lra; lia.
Qed.

End RowSums.

(* ================================================================== *)
(** ** The residual function *)

Section CostFacts.

Context {T : Type} `{AT : Arith T}.

Variable rotate : gp_Mat T -> gp_Vec T -> gp_Vec T.

Lemma same_outcome_refl {A : Type} (r : result A) : same_outcome r r.
Proof. destruct r; simpl; auto. Qed.

(** Whether a marker pair raises, and what, is decided by the markers. *)
Lemma marker_term_same_outcome (t1 t2 t1' t2' : gp_Trsf T) (m1 m2 : ConstraintMarker T) :
  same_outcome (marker_term rotate t1 t2 m1 m2) (marker_term rotate t1' t2' m1 m2).
Proof.
  destruct m1, m2; simpl; auto.
Qed.

Lemma residual_sum_same_outcome (t1 t2 t1' t2' : gp_Trsf T) (ps : list _) :
  forall acc acc',
  same_outcome (residual_sum rotate t1 t2 acc ps) (residual_sum rotate t1' t2' acc' ps).
Proof.
  induction ps as [|[m1 m2] ps IH]; intros acc acc'; simpl; [exact I|].
  pose proof (marker_term_same_outcome t1 t2 t1' t2' m1 m2) as Hm.
  destruct (marker_term rotate t1 t2 m1 m2), (marker_term rotate t1' t2' m1 m2);
    simpl in *; try contradiction; [apply IH | exact Hm].
Qed.

Lemma py_getitem_same_outcome {A : Type} (l1 l2 : list A) (k : Z) :
  length l1 = length l2 -> same_outcome (py_getitem l1 k) (py_getitem l2 k).
Proof.
  intros Hlen; unfold py_getitem; rewrite Hlen.
  set (k' := if (k <? 0)%Z then (k + Z.of_nat (length l2))%Z else k).
  destruct ((0 <=? k')%Z && (k' <? Z.of_nat (length l2))%Z) eqn:E; simpl; [|reflexivity].
  apply andb_true_iff in E as [E1 E2].
  apply Z.leb_le in E1; apply Z.ltb_lt in E2.
  destruct (nth_error l1 (Z.to_nat k')) eqn:N1.
  - destruct (nth_error l2 (Z.to_nat k')) eqn:N2; [exact I|].
    apply nth_error_None in N2; lia.
  - apply nth_error_None in N1; lia.
Qed.

Lemma row_value_same_outcome (ts ts' : list (gp_Trsf T)) (c : (Z * Z) * Constraint T) :
  length ts = length ts' ->
  same_outcome (row_value rotate ts c) (row_value rotate ts' c).
Proof.
  intros Hlen; destruct c as [[k1 k2] [ms1 ms2]]; unfold row_value.
  pose proof (py_getitem_same_outcome ts ts' k1 Hlen) as H1.
  destruct (py_getitem ts k1), (py_getitem ts' k1); simpl in *;
    try contradiction; [|exact H1].
  pose proof (py_getitem_same_outcome ts ts' k2 Hlen) as H2.
  destruct (py_getitem ts k2), (py_getitem ts' k2); simpl in *;
    try contradiction; [|exact H2].
  apply residual_sum_same_outcome.
Qed.

Lemma mapM_same_outcome {A B : Type} (f g : A -> result B) (l : list A) :
  (forall a, In a l -> same_outcome (f a) (g a)) ->
  same_outcome (mapM f l) (mapM g l).
Proof.
  induction l as [|a l IH]; intros H; simpl; [exact I|].
  pose proof (H a (or_introl eq_refl)) as Ha.
  destruct (f a), (g a); simpl in *; try contradiction; [|exact Ha].
  assert (IH' := IH (fun b Hb => H b (or_intror Hb))).
  destruct (mapM f l), (mapM g l); simpl in *; try contradiction; [exact I | exact IH'].
Qed.

(** Two comprehensions that end alike element by element and agree on the
    [i]-th element agree on the [i]-th component of their results. *)
Lemma mapM_component {A : Type} (f g : A -> result T) (l : list A) :
  (forall a, In a l -> same_outcome (f a) (g a)) ->
  forall i a, nth_error l i = Some a -> f a = g a ->
  residual_component i (mapM f l) = residual_component i (mapM g l).
Proof.
  induction l as [|a0 l IH]; intros H i a Hi Ha.
  - destruct i; discriminate Hi.
  - simpl.
    pose proof (H a0 (or_introl eq_refl)) as H0.
    assert (Hl : forall b, In b l -> same_outcome (f b) (g b))
      by (intros b Hb; apply H; right; exact Hb).
    destruct i as [|i]; simpl in Hi.
    + injection Hi as ->; rewrite Ha.
      destruct (g a) as [v|e]; simpl; [|reflexivity].
      pose proof (mapM_same_outcome f g l Hl) as Hrest.
      destruct (mapM f l), (mapM g l); simpl in *; try contradiction;
        [reflexivity | rewrite Hrest; reflexivity].
    + destruct (f a0), (g a0); simpl in *; try contradiction;
        [|rewrite H0; reflexivity].
      pose proof (IH Hl i a Hi Ha) as IHi.
      destruct (mapM f l), (mapM g l); simpl in *; exact IHi.
Qed.

(** The pose of an entity depends on the six parameters of its block. *)
Lemma pose_at_block (x y : list T) (k : Z) :
  (0 <= k)%Z ->
  (forall j, in_block k j = true -> nth j x num0 = nth j y num0) ->
  pose_at x (Z.to_nat k) = pose_at y (Z.to_nat k).
Proof.
  intros Hk H; unfold pose_at.
  assert (Hin : forall d, (d < 6)%nat -> in_block k (6 * Z.to_nat k + d) = true).
  { intros d Hd; unfold in_block.
    apply andb_true_iff; split; [apply Z.leb_le | apply Z.ltb_lt]; lia. }
  rewrite <- (Nat.add_0_r (6 * Z.to_nat k)) at 1 7.
  rewrite !H by (apply Hin; lia).
  reflexivity.
Qed.

Lemma combine_firstn_min {A B : Type} (l1 : list A) (l2 : list B) :
  combine (firstn (min (length l1) (length l2)) l1)
          (firstn (min (length l1) (length l2)) l2) = combine l1 l2.
Proof.
  revert l2; induction l1 as [|a l1 IH]; intros [|b l2]; simpl; try reflexivity.
  rewrite IH; reflexivity.
Qed.

End CostFacts.

(* ================================================================== *)
(** ** Construction and the driver *)

Section SolveFacts.

Context {T : Type} `{AT : Arith T}.

Variable rotate : gp_Mat T -> gp_Vec T -> gp_Vec T.

Lemma mapM_raises {A B : Type} (f : A -> result B) (l : list A) (a : A) :
  In a l -> (exists e, f a = Raise e) -> exists e, mapM f l = Raise e.
Proof.
  induction l as [|a0 l IH]; intros Hin Ha; [destruct Hin|].
  simpl; destruct (f a0) as [b|e] eqn:E; simpl; [|exists e; reflexivity].
  destruct Hin as [->|Hin].
  - destruct Ha as (e & He); rewrite He in E; discriminate E.
  - destruct (IH Hin Ha) as (e & He); rewrite He; exists e; reflexivity.
Qed.

Lemma mapM_Raise_inv {A B : Type} (f : A -> result B) (l : list A) (e : exn) :
  mapM f l = Raise e -> exists a, In a l /\ f a = Raise e.
Proof.
  induction l as [|a l IH]; simpl; intros H; [discriminate H|].
  destruct (f a) as [b|e'] eqn:E; simpl in H.
  - destruct (mapM f l) as [bs|e'']; simpl in H; [discriminate H|].
    injection H as ->.
    destruct (IH eq_refl) as (a' & Hin & Ha'); exists a'; split; [right|]; assumption.
  - injection H as ->; exists a; split; [left; reflexivity | exact E].
Qed.

Lemma residual_sum_raises (t1 t2 : gp_Trsf T) (ps : list _) (m1 m2 : ConstraintMarker T) :
  In (m1, m2) ps -> pair_raises m1 m2 = true ->
  forall acc, exists e, residual_sum rotate t1 t2 acc ps = Raise e.
Proof.
  induction ps as [|[n1 n2] ps IH]; intros Hin Hr acc; [destruct Hin|].
  simpl; destruct (marker_term rotate t1 t2 n1 n2) as [v|e] eqn:E; simpl;
    [|exists e; reflexivity].
  destruct Hin as [Heq|Hin]; [|apply IH; assumption].
  injection Heq as -> ->.
  destruct m1, m2; simpl in *; discriminate.
Qed.

Lemma residual_sum_computes (t1 t2 : gp_Trsf T) (ps : list _) :
  Forall (fun p => pair_computes (fst p) (snd p) = true) ps ->
  forall acc, exists v, residual_sum rotate t1 t2 acc ps = Ok v.
Proof.
  induction 1 as [|[m1 m2] ps Hp _ IH]; intros acc; simpl.
  - exists acc; reflexivity.
  - destruct m1, m2; simpl in *; try discriminate; apply IH.
Qed.

Lemma row_value_raises (ts : list (gp_Trsf T)) (k1 k2 : Z)
    (ms1 ms2 : list (ConstraintMarker T)) (m1 m2 : ConstraintMarker T) :
  In (m1, m2) (combine ms1 ms2) -> pair_raises m1 m2 = true ->
  exists e, row_value rotate ts ((k1, k2), (ms1, ms2)) = Raise e.
Proof.
  intros Hin Hr; unfold row_value.
  destruct (py_getitem ts k1) as [t1|e]; simpl; [|exists e; reflexivity].
  destruct (py_getitem ts k2) as [t2|e]; simpl; [|exists e; reflexivity].
  apply residual_sum_raises with (m1 := m1) (m2 := m2); assumption.
Qed.

(** One refused marker pair makes every residual evaluation raise. *)
Lemma _cost_raises (self : ConstraintSolver T) (k1 k2 : Z)
    (ms1 ms2 : list (ConstraintMarker T)) (m1 m2 : ConstraintMarker T) :
  solver_inv self ->
  In ((k1, k2), (ms1, ms2)) (constraints self) ->
  In (m1, m2) (combine ms1 ms2) -> pair_raises m1 m2 = true ->
  forall x, exists e, _cost rotate self x = Raise e.
Proof.
  intros [_ Hnc] Hc Hin Hr x.
  rewrite _cost_rows by exact Hnc.
  destruct (mapM (build_slice x) (seq 0 (ne self))) as [ts|e]; simpl;
    [|exists e; reflexivity].
  apply mapM_raises with (a := ((k1, k2), (ms1, ms2))); [exact Hc|].
  apply row_value_raises with (m1 := m1) (m2 := m2); assumption.
Qed.

Lemma _cost_computes (self : ConstraintSolver T) (x : list T) :
  solver_inv self -> length x = (6 * ne self)%nat ->
  Forall (constraint_computes (ne self)) (constraints self) ->
  exists rv, _cost rotate self x = Ok rv.
Proof.
  intros [_ Hnc] Hx Hcs.
  rewrite _cost_rows by exact Hnc.
  rewrite transforms_in_range by exact Hx; simpl.
  apply mapM_all_Ok.
  apply Forall_impl with (2 := Hcs).
  intros [[k1 k2] [ms1 ms2]] (H1 & H2 & Hps); unfold row_value.
  rewrite !transforms_getitem by assumption; simpl.
  apply residual_sum_computes; exact Hps.
Qed.

Lemma run_optimizer_raises (f : list T -> result (list T)) (x : list T)
    (k : list T -> Optimizer T) :
  (forall x, exists e, f x = Raise e) ->
  exists e, run_optimizer f (Evaluate x k) = Raise e.
Proof.
  intros Hf; simpl; destruct (Hf x) as (e & He); rewrite He; exists e; reflexivity.
Qed.

Lemma run_optimizer_wf (f : list T -> result (list T)) (n : nat) (o : Optimizer T) :
  (forall x, length x = n -> exists r, f x = Ok r) ->
  opt_wf n o -> exists x, run_optimizer f o = Ok x /\ length x = n.
Proof.
  intros Hf; induction 1 as [x Hx|x k Hx _ IH]; simpl.
  - exists x; split; [reflexivity | exact Hx].
  - destruct (Hf x Hx) as (r & Hr); rewrite Hr; simpl; apply IH.
Qed.

Lemma final_poses (x : list T) (n : nat) :
  length x = (6 * n)%nat ->
  mapM (fun i => t <- build_slice x i ;; Ok (mk_Location t)) (seq 0 n) =
  Ok (map (fun i => mk_Location (pose_at x i)) (seq 0 n)).
Proof.
  intros Hx; rewrite <- mapM_pure.
  apply mapM_ext_in; intros i Hi; apply in_seq in Hi.
  rewrite build_slice_in_range with (n := n) by (exact Hx || lia); reflexivity.
Qed.

Lemma ravel_length (es : list (DOF6 T)) : length (ravel es) = (6 * length es)%nat.
Proof.
  induction es as [|[[[[[x y] z] a] b] c] es IH]; [reflexivity|].
  change (ravel ((x, y, z, a, b, c) :: es)) with ([x; y; z; a; b; c] ++ ravel es).
  rewrite length_app, IH; simpl; lia.
Qed.

(** The poses read off the start vector are the entities, encoded. *)
Lemma poses_of_ravel (es : list (DOF6 T)) :
  map (fun i => mk_Location (pose_at (ravel es) i)) (seq 0 (length es)) = map encode es.
Proof.
  induction es as [|[[[[[x y] z] a] b] c] es IH]; [reflexivity|].
  change (seq 0 (length ((x, y, z, a, b, c) :: es)))
    with (0%nat :: seq 1 (length es)).
  rewrite <- seq_shift, map_cons, map_map; simpl map at 2.
  f_equal; rewrite <- IH.
  apply map_ext; intros i.
  unfold pose_at; f_equal.
  change (ravel ((x, y, z, a, b, c) :: es)) with ([x; y; z; a; b; c] ++ ravel es).
  replace (6 * S i)%nat with (6 + 6 * i)%nat by lia.
  reflexivity.
Qed.

Lemma __init___inv (locs : list (Location T)) (cs : Constraints T)
    (self : ConstraintSolver T) :
  __init__ locs cs = Ok self ->
  solver_inv self /\ constraints self = cs /\ ne self = length locs /\
  mapM _locToDOF6 locs = Ok (entities self).
Proof.
  unfold __init__; intros H.
  apply bind_Ok_inv in H as (es & Hes & H); injection H as <-.
  unfold solver_inv; simpl.
  rewrite (mapM_Ok_length _ _ _ Hes); repeat split; assumption.
Qed.

(** Construction raises if and only if some pose is singular. *)
Lemma __init___singular (locs : list (Location T)) (cs : Constraints T) :
  existsb singular locs = true -> __init__ locs cs = Raise ZeroDivisionError.
Proof.
  unfold __init__; intros Hs.
  assert (H : mapM _locToDOF6 locs = Raise ZeroDivisionError); [|rewrite H; reflexivity].
  induction locs as [|loc locs IH]; [discriminate Hs|].
  simpl in *; destruct (singular loc) eqn:E.
  - rewrite (_locToDOF6_singular loc E); reflexivity.
  - destruct (_locToDOF6_regular loc E) as (d & Hd); rewrite Hd; simpl.
    rewrite (IH Hs); reflexivity.
Qed.

Lemma __init___regular (locs : list (Location T)) (cs : Constraints T) :
  existsb singular locs = false -> exists self, __init__ locs cs = Ok self.
Proof.
  unfold __init__; intros Hs.
  assert (H : exists es, mapM _locToDOF6 locs = Ok es);
    [|destruct H as (es & H); rewrite H; simpl; eexists; reflexivity].
  apply mapM_all_Ok, Forall_forall; intros loc Hin.
  apply _locToDOF6_regular.
  destruct (singular loc) eqn:E; [|reflexivity].
  assert (Hex : existsb singular locs = true)
    by (apply existsb_exists; exists loc; split; assumption).
  rewrite Hex in Hs; discriminate Hs.
Qed.

End SolveFacts.

(* ================================================================== *)
(** ** Residual rows over the reals *)

Section RealResiduals.

Local Open Scope R_scope.

Variable rotate : gp_Mat R -> gp_Vec R -> gp_Vec R.

Lemma euclidean_distance_nonneg (u v : gp_Vec R) : 0 <= euclidean_distance u v.
Proof. apply sqrt_pos. Qed.

Lemma euclidean_distance_zero (u v : gp_Vec R) :
  euclidean_distance u v = 0 <-> u = v.
Proof.
  destruct u as [ux uy uz], v as [vx vy vz]; unfold euclidean_distance; simpl.
  split.
  - intros H.
    apply sqrt_eq_0 in H; [|apply sq_sum_nonneg].
    apply sq_sum_zero in H as (Hx & Hy & Hz).
    f_equal; lra.
  - intros E; injection E as -> -> ->.
    replace ((vx - vx) * (vx - vx) + (vy - vy) * (vy - vy) + (vz - vz) * (vz - vz))
      with 0 by ring.
    apply sqrt_0.
Qed.

Lemma same_kind_computes {T : Type} (m1 m2 : ConstraintMarker T) :
  same_kind m1 m2 = true -> pair_computes m1 m2 = true.
Proof. destruct m1, m2; simpl; intros H; (reflexivity || discriminate H). Qed.

(** On pairs of one kind the loop adds up what the specification says. *)
Lemma residual_sum_share_kind (t1 t2 : gp_Trsf R) (ps : list _) :
  Forall (fun p => same_kind (fst p) (snd p) = true) ps ->
  forall acc,
  residual_sum rotate t1 t2 acc ps =
  Ok (acc + sum_list (map (spec_pair_term rotate t1 t2) ps)).
Proof.
  induction 1 as [|[m1 m2] ps Hp _ IH]; intros acc; simpl.
  - f_equal; lra.
  - destruct m1, m2; simpl in Hp; try discriminate Hp; simpl;
      rewrite IH; f_equal; unfold euclidean_distance, Modulus, vec_sub; simpl; lra.
Qed.

Lemma row_value_share_kind (x : list R) (n : nat) (k1 k2 : Z)
    (ms1 ms2 : list (ConstraintMarker R)) :
  constraint_zip_wf n ((k1, k2), (ms1, ms2)) ->
  row_value rotate (map (pose_at x) (seq 0 n)) ((k1, k2), (ms1, ms2)) =
  Ok (spec_residual rotate (pose_at x (Z.to_nat k1)) (pose_at x (Z.to_nat k2)) ms1 ms2).
Proof.
  intros (H1 & H2 & Hps); unfold row_value.
  rewrite !transforms_getitem by assumption; simpl.
  rewrite residual_sum_share_kind by exact Hps.
  unfold spec_residual; f_equal; simpl; lra.
Qed.

(** The residual vector of a solver whose zipped marker pairs share their
    kind: every row is the sum the specification describes. *)
Lemma _cost_share_kind (self : ConstraintSolver R) (x : list R) :
  solver_inv self -> length x = (6 * ne self)%nat ->
  Forall (constraint_zip_wf (ne self)) (constraints self) ->
  exists rv,
    _cost rotate self x = Ok rv /\ length rv = nc self /\
    forall i k1 k2 ms1 ms2,
      nth_error (constraints self) i = Some ((k1, k2), (ms1, ms2)) ->
      nth i rv 0 =
      spec_residual rotate (pose_at x (Z.to_nat k1)) (pose_at x (Z.to_nat k2)) ms1 ms2.
Proof.
  intros [Hne Hnc] Hx Hcs.
  rewrite _cost_rows by exact Hnc.
  rewrite transforms_in_range by exact Hx; simpl.
  destruct (mapM_all_Ok (row_value rotate (map (pose_at x) (seq 0 (ne self))))
              (constraints self)) as (rv & Hrv).
  { apply Forall_impl with (2 := Hcs).
    intros [[k1 k2] [ms1 ms2]] Hc; eexists; apply row_value_share_kind; exact Hc. }
  exists rv; split; [exact Hrv|]; split.
  - rewrite (mapM_Ok_length _ _ _ Hrv); symmetry; exact Hnc.
  - intros i k1 k2 ms1 ms2 Hi.
    destruct (mapM_Ok_nth _ _ _ _ _ Hrv Hi) as (v & Hv & Hnth).
    rewrite row_value_share_kind in Hv
      by (apply (proj1 (Forall_forall _ _) Hcs), (nth_error_In _ _ Hi)).
    injection Hv as <-.
    apply nth_error_nth; exact Hnth.
Qed.

End RealResiduals.

(* ================================================================== *)
(** ** Properties of the sparsity pattern and of the residual function *)

Section MatrixClaims.

Local Open Scope R_scope.

(** C7.  For a solver of [ne] entities and [nc] constraints the sparsity
    matrix has [nc] rows of [6·ne] columns, and the row of the constraint
    at position [i], with the pair [(k1, k2)] of entity indices, holds 1
    exactly on the columns of the blocks [[6k1, 6k1+6)] and [[6k2, 6k2+6)]
    and 0 elsewhere; its sum is 12 when [k1 ≠ k2] and 6 when [k1 = k2]. *)
Theorem jacobianSparsity_pattern (self : ConstraintSolver R) :
  solver_inv self ->
  exists rv,
    _jacobianSparsity self = Ok rv /\
    length rv = nc self /\
    Forall (fun row => length row = (6 * ne self)%nat) rv /\
    forall i k1 k2 c,
      nth_error (constraints self) i = Some ((k1, k2), c) ->
      index_in_range (ne self) k1 -> index_in_range (ne self) k2 ->
      exists row,
        nth_error rv i = Some row /\
        (forall j, (j < 6 * ne self)%nat ->
           nth j row 0 = if in_block k1 j || in_block k2 j then 1 else 0) /\
        sum_list row = if (k1 =? k2)%Z then 6 else 12.
Proof.
  intros [_ Hnc].
  exists (map (sparsity_row (ne self)) (constraints self)).
  split; [apply _jacobianSparsity_rows; exact Hnc|].
  split; [rewrite length_map; symmetry; exact Hnc|].
  split.
  - apply Forall_forall; intros row Hrow.
    apply in_map_iff in Hrow as (c & <- & _); apply sparsity_row_length.
  - intros i k1 k2 c Hi H1 H2.
    exists (sparsity_row (ne self) ((k1, k2), c)).
    split; [apply map_nth_error; exact Hi|].
    split; [|apply sparsity_row_sum; assumption].
    intros j Hj.
    exact (sparsity_row_nth (ne self) k1 k2 c j H1 H2 Hj).
Qed.

(** C7 at two bodies: a row for the pair (0, 1), a row for the pair (1, 1). *)
Lemma jacobianSparsity_pattern_two_bodies :
  solver_inv (bodies_at_rest 2 [point_mate; ((1, 1)%Z, ([], []))]) /\
  exists rv row0 row1,
    _jacobianSparsity (bodies_at_rest 2 [point_mate; ((1, 1)%Z, ([], []))]) = Ok rv /\
    length rv = 2%nat /\
    nth_error rv 0 = Some row0 /\ sum_list row0 = 12 /\
    nth_error rv 1 = Some row1 /\ sum_list row1 = 6.
Proof.
  assert (Hinv : solver_inv (T := R) (bodies_at_rest 2 [point_mate; ((1, 1)%Z, ([], []))]))
    by (split; reflexivity).
  split; [exact Hinv|].
  destruct (jacobianSparsity_pattern _ Hinv) as (rv & Hrv & Hlen & _ & Hrows).
  destruct (Hrows 0%nat 0%Z 1%Z ([gp_Pnt origin], [gp_Pnt origin]) eq_refl)
    as (row0 & Hr0 & _ & Hs0); [unfold index_in_range; simpl; lia..|].
  destruct (Hrows 1%nat 1%Z 1%Z ([], []) eq_refl)
    as (row1 & Hr1 & _ & Hs1); [unfold index_in_range; simpl; lia..|].
  exists rv, row0, row1.
  repeat (split; [assumption|]); assumption.
Defined.

Variable rotate : gp_Mat R -> gp_Vec R -> gp_Vec R.

(** C2, in exact arithmetic.  For a parameter vector of length [6·ne] and
    constraints that satisfy the invariants of the data model (indices in range, marker
    sequences of equal length, pairs of one kind), the residual function
    returns a vector whose [i]-th component is, for the constraint at row
    [i] with the pair [(k1, k2)], the sum over its marker pairs of the
    Euclidean distance of the two points transformed by the poses decoded
    from blocks [k1] and [k2] (point pairs) and of the raw dot product of
    the two directions rotated by these poses (direction pairs).  A point
    term is non-negative, and zero exactly when the world points coincide. *)
Theorem cost_rows_are_sums (self : ConstraintSolver R) (x : list R) :
  solver_inv self -> length x = (6 * ne self)%nat ->
  Forall (constraint_wf (ne self)) (constraints self) ->
  exists rv,
    _cost rotate self x = Ok rv /\ length rv = nc self /\
    forall i k1 k2 ms1 ms2,
      nth_error (constraints self) i = Some ((k1, k2), (ms1, ms2)) ->
      let t1 := pose_at x (Z.to_nat k1) in
      let t2 := pose_at x (Z.to_nat k2) in
      nth i rv 0 = spec_residual rotate t1 t2 ms1 ms2 /\
      (forall d1 d2,
         spec_pair_term rotate t1 t2 (gp_Dir d1, gp_Dir d2) =
         Dot (Dir_Transformed rotate d1 t1) (Dir_Transformed rotate d2 t2)) /\
      (forall p1 p2,
         0 <= spec_pair_term rotate t1 t2 (gp_Pnt p1, gp_Pnt p2) /\
         (spec_pair_term rotate t1 t2 (gp_Pnt p1, gp_Pnt p2) = 0 <->
          Pnt_Transformed rotate p1 t1 = Pnt_Transformed rotate p2 t2)).
Proof.
  intros Hinv Hx Hcs.
  destruct (_cost_share_kind rotate self x Hinv Hx) as (rv & Hrv & Hlen & Hrows).
  { apply Forall_impl with (2 := Hcs).
    intros [[k1 k2] [ms1 ms2]] (H1 & H2 & _ & Hps); exact (conj H1 (conj H2 Hps)). }
  exists rv; split; [exact Hrv|]; split; [exact Hlen|].
  intros i k1 k2 ms1 ms2 Hi t1 t2.
  split; [apply Hrows; exact Hi|].
  split; [reflexivity|].
  intros p1 p2; split;
    [apply euclidean_distance_nonneg | apply euclidean_distance_zero].
Qed.

(** C9.  When the two marker sequences of a constraint differ in length,
    the residual function raises nothing on that account: [zip] forms
    [min(len(ms1), len(ms2))] pairs, the row is the sum over these pairs,
    and the markers beyond them are never looked at. *)
Theorem cost_ignores_excess_markers (self : ConstraintSolver R) (x : list R) :
  solver_inv self -> length x = (6 * ne self)%nat ->
  Forall (constraint_zip_wf (ne self)) (constraints self) ->
  exists rv,
    _cost rotate self x = Ok rv /\
    forall i k1 k2 ms1 ms2,
      nth_error (constraints self) i = Some ((k1, k2), (ms1, ms2)) ->
      let n := min (length ms1) (length ms2) in
      length (combine ms1 ms2) = n /\
      nth i rv 0 =
      spec_residual rotate (pose_at x (Z.to_nat k1)) (pose_at x (Z.to_nat k2))
                    (firstn n ms1) (firstn n ms2).
Proof.
  intros Hinv Hx Hcs.
  destruct (_cost_share_kind rotate self x Hinv Hx Hcs) as (rv & Hrv & _ & Hrows).
  exists rv; split; [exact Hrv|].
  intros i k1 k2 ms1 ms2 Hi n.
  split; [apply length_combine|].
  rewrite (Hrows i k1 k2 ms1 ms2 Hi).
  unfold spec_residual, n; rewrite combine_firstn_min; reflexivity.
Qed.

End MatrixClaims.

(** C2 (counterexample, binary64).  Two bodies at rest, and the point
    (2^-600, 0, 0) of body 0 against the origin of body 1.  The two world
    points are the markers themselves and differ, yet the square of their
    distance underflows and the point term is 0. *)
Lemma cost_point_term_underflows :
  Pnt_Transformed Multiplied near_origin (pose_at (repeat 0%float 12) 0) = near_origin /\
  Pnt_Transformed Multiplied origin (pose_at (repeat 0%float 12) 1) = origin /\
  PrimFloat.eqb (vX near_origin) (vX (origin (T := float))) = false /\
  _cost Multiplied (bodies_at_rest 2 [near_mate]) (repeat 0%float 12) = Ok [0%float].
Proof.
  split; [vm_compute; reflexivity|].
  split; [vm_compute; reflexivity|].
  split; vm_compute; reflexivity.
Qed.

(** C2 at two bodies at rest with a point mate and a direction mate. *)
Lemma cost_rows_are_sums_two_bodies :
  exists rv,
    _cost Multiplied (bodies_at_rest 2 [point_mate; direction_mate])
          (repeat 0%R 12) = Ok rv /\
    length rv = 2%nat.
Proof.
  destruct (cost_rows_are_sums Multiplied
              (bodies_at_rest 2 [point_mate; direction_mate]) (repeat 0%R 12))
    as (rv & Hrv & Hlen & _).
  - split; reflexivity.
  - reflexivity.
  - repeat constructor; unfold index_in_range; simpl; lia.
  - exists rv; split; [exact Hrv | exact Hlen].
Defined.

(** C9 at a constraint with two markers against one: the row is that of
    the first pair alone. *)
Lemma cost_ignores_excess_markers_lopsided :
  exists rv,
    _cost Multiplied (bodies_at_rest 2 [lopsided_mate]) (repeat 0%R 12) = Ok rv /\
    nth 0 rv 0%R =
    spec_residual Multiplied (pose_at (repeat 0%R 12) 0) (pose_at (repeat 0%R 12) 1)
                  [gp_Pnt origin] [gp_Pnt unit_x].
Proof.
  destruct (cost_ignores_excess_markers Multiplied
              (bodies_at_rest 2 [lopsided_mate]) (repeat 0%R 12))
    as (rv & Hrv & Hrows).
  - split; reflexivity.
  - reflexivity.
  - repeat constructor; unfold index_in_range; simpl; lia.
  - exists rv; split; [exact Hrv|].
    exact (proj2 (Hrows 0%nat 0%Z 1%Z _ _ eq_refl)).
Defined.

(* ================================================================== *)
(** ** What a residual row depends on *)

Section DependencyClaims.

Context {T : Type} `{AT : Arith T}.

Variable rotate : gp_Mat T -> gp_Vec T -> gp_Vec T.

(** The residual of a constraint reads the parameters of its two bodies
    and no others. *)
Lemma cost_row_depends_on_blocks (self : ConstraintSolver T) (x y : list T)
    (i : nat) (k1 k2 : Z) (c : Constraint T) :
  solver_inv self ->
  length x = (6 * ne self)%nat -> length y = (6 * ne self)%nat ->
  nth_error (constraints self) i = Some ((k1, k2), c) ->
  index_in_range (ne self) k1 -> index_in_range (ne self) k2 ->
  (forall j, in_block k1 j || in_block k2 j = true -> nth j x num0 = nth j y num0) ->
  residual_component i (_cost rotate self x) = residual_component i (_cost rotate self y).
Proof.
  intros [_ Hnc] Hx Hy Hi H1 H2 Hagree.
  rewrite !_cost_rows by exact Hnc.
  rewrite !transforms_in_range by assumption; simpl.
  apply mapM_component with (a := ((k1, k2), c)).
  - intros c' _; apply row_value_same_outcome.
    rewrite !length_map; reflexivity.
  - exact Hi.
  - destruct c as [ms1 ms2]; unfold row_value.
    rewrite !transforms_getitem by assumption.
    rewrite (pose_at_block x y k1), (pose_at_block x y k2); try reflexivity;
      try (unfold index_in_range in *; lia);
      intros j Hj; apply Hagree; rewrite Hj; auto using orb_true_r.
Qed.

Lemma in_block_in_range (n : nat) (k : Z) (j : nat) :
  index_in_range n k -> in_block k j = true -> (j < 6 * n)%nat.
Proof.
  unfold index_in_range, in_block; intros Hk Hj.
  apply andb_true_iff in Hj as [_ Hj]; apply Z.ltb_lt in Hj; lia.
Qed.

(** C8.  The sparsity pattern covers what the residual depends on.  For
    the constraint at row [i], with the pair [(k1, k2)] of entity indices,
    [_jacobianSparsity] returns a matrix whose row [i] holds 1 on every
    column of the blocks [k1] and [k2]; two parameter vectors of length
    [6·ne] that agree on these blocks give the same [i]-th residual
    component, or the same exception, and so do two vectors that agree on
    every column where the row holds 1: the residual of the constraint
    depends on no column its row leaves at 0. *)
Theorem cost_row_depends_on_marked_columns (self : ConstraintSolver T) (x y : list T)
    (i : nat) (k1 k2 : Z) (c : Constraint T) :
  solver_inv self ->
  length x = (6 * ne self)%nat -> length y = (6 * ne self)%nat ->
  nth_error (constraints self) i = Some ((k1, k2), c) ->
  index_in_range (ne self) k1 -> index_in_range (ne self) k2 ->
  exists (rv : list (list T)) (row : list T),
    _jacobianSparsity self = Ok rv /\
    nth_error rv i = Some row /\
    (forall j, in_block k1 j || in_block k2 j = true ->
               (j < 6 * ne self)%nat /\ nth j row num0 = num1) /\
    ((forall j, in_block k1 j || in_block k2 j = true ->
                nth j x num0 = nth j y num0) ->
     residual_component i (_cost rotate self x) =
     residual_component i (_cost rotate self y)) /\
    ((forall j, (j < 6 * ne self)%nat ->
                nth j row num0 = num1 -> nth j x num0 = nth j y num0) ->
     residual_component i (_cost rotate self x) =
     residual_component i (_cost rotate self y)).
Proof.
  intros Hinv Hx Hy Hi H1 H2.
  exists (map (sparsity_row (ne self)) (constraints self)),
         (sparsity_row (ne self) ((k1, k2), c)).
  assert (Hmarked : forall j, in_block k1 j || in_block k2 j = true ->
            (j < 6 * ne self)%nat /\
            nth j (sparsity_row (ne self) ((k1, k2), c)) num0 = num1).
  { intros j Hj.
    assert (Hlt : (j < 6 * ne self)%nat).
    { apply orb_true_iff in Hj as [Hj|Hj];
        [apply in_block_in_range with (k := k1) | apply in_block_in_range with (k := k2)];
        assumption. }
    split; [exact Hlt|].
    rewrite sparsity_row_nth by assumption.
    rewrite Hj; reflexivity. }
  split; [apply _jacobianSparsity_rows; apply Hinv|].
  split; [apply map_nth_error; exact Hi|].
  split; [exact Hmarked|].
  split.
  - intros Hagree.
    apply cost_row_depends_on_blocks with (k1 := k1) (k2 := k2) (c := c); assumption.
  - intros Hagree.
    apply cost_row_depends_on_blocks with (k1 := k1) (k2 := k2) (c := c); try assumption.
    intros j Hj; destruct (Hmarked j Hj) as [Hlt Hone].
    apply Hagree; assumption.
Qed.

End DependencyClaims.

(** C8 at three bodies: the row of a mate between bodies 0 and 1 leaves the
    columns of body 2 at 0, and the parameters of body 2 do not reach its
    residual. *)
Lemma cost_row_depends_on_marked_columns_three_bodies :
  exists (rv : list (list R)) (row : list R),
    _jacobianSparsity (bodies_at_rest 3 [point_mate]) = Ok rv /\
    nth_error rv 0 = Some row /\
    residual_component 0
      (_cost Multiplied (bodies_at_rest 3 [point_mate]) (repeat 0%R 18)) =
    residual_component 0
      (_cost Multiplied (bodies_at_rest 3 [point_mate])
             (repeat 0%R 12 ++ repeat 1%R 6)).
Proof.
  destruct (cost_row_depends_on_marked_columns Multiplied
              (bodies_at_rest 3 [point_mate])
              (repeat 0%R 18) (repeat 0%R 12 ++ repeat 1%R 6) 0 0%Z 1%Z
              ([gp_Pnt origin], [gp_Pnt origin]))
    as (rv & row & Hrv & Hrow & _ & _ & Hsame).
  - split; reflexivity.
  - reflexivity.
  - reflexivity.
  - reflexivity.
  - unfold index_in_range; simpl; lia.
  - unfold index_in_range; simpl; lia.
  - exists rv, row; split; [exact Hrv|]; split; [exact Hrow|].
    apply Hsame; intros j Hj Hone.
    rewrite _jacobianSparsity_rows in Hrv by reflexivity.
    injection Hrv as <-; injection Hrow as <-.
    change (nth j (sparsity_row 3 ((0, 1)%Z, ([gp_Pnt origin], [gp_Pnt origin])))
                (@num0 R R_arith) = @num1 R R_arith) in Hone.
    rewrite (sparsity_row_nth (T := R) 3 0 1) in Hone
      by (unfold index_in_range; simpl; lia || exact Hj).
    do 12 (destruct j as [|j]; [reflexivity|]).
    do 6 (destruct j as [|j]; [exfalso; simpl in Hone; lra|]).
    simpl in Hj; lia.
Defined.

(* ================================================================== *)
(** ** Properties of construction and of [solve] *)

Section DriverClaims.

Context {T : Type} `{AT : Arith T}.

Variable rotate : gp_Mat T -> gp_Vec T -> gp_Vec T.

Lemma solve_raises (least_squares : list T -> list (list T) -> Optimizer T)
    (self : ConstraintSolver T) :
  solver_inv self ->
  (forall x, exists e, _cost rotate self x = Raise e) ->
  (forall x0 sp, exists x k, least_squares x0 sp = Evaluate x k) ->
  exists e, solve rotate least_squares self = Raise e.
Proof.
  intros [_ Hnc] Hf Hls; unfold solve.
  rewrite _jacobianSparsity_rows by exact Hnc; simpl.
  destruct (Hls (ravel (entities self))
                (map (sparsity_row (ne self)) (constraints self))) as (x & k & ->).
  destruct (run_optimizer_raises (_cost rotate self) x k Hf) as (e & ->).
  exists e; reflexivity.
Qed.

Lemma solve_computes (least_squares : list T -> list (list T) -> Optimizer T)
    (self : ConstraintSolver T) :
  solver_inv self ->
  Forall (constraint_computes (ne self)) (constraints self) ->
  (forall x0 sp, length x0 = (6 * ne self)%nat ->
                 opt_wf (6 * ne self) (least_squares x0 sp)) ->
  exists poses, solve rotate least_squares self = Ok poses /\ length poses = ne self.
Proof.
  intros Hinv Hcs Hls; unfold solve.
  rewrite _jacobianSparsity_rows by apply Hinv; simpl.
  destruct (run_optimizer_wf (_cost rotate self) (6 * ne self)
              (least_squares (ravel (entities self))
                 (map (sparsity_row (ne self)) (constraints self))))
    as (x & -> & Hx).
  - intros x Hx; apply _cost_computes; assumption.
  - apply Hls; rewrite ravel_length, (proj1 Hinv); reflexivity.
  - simpl; rewrite final_poses by exact Hx.
    eexists; split; [reflexivity|].
    rewrite length_map, length_seq; reflexivity.
Qed.

(** Without constraints, and with an optimizer that returns its start
    vector, [solve] returns every entity encoded. *)
Lemma solve_without_constraints (self : ConstraintSolver T) :
  solver_inv self -> constraints self = [] ->
  solve rotate one_evaluation self = Ok (map encode (entities self)).
Proof.
  intros [Hne Hnc] Hcs; unfold solve.
  rewrite _jacobianSparsity_rows by exact Hnc; simpl.
  assert (Hx : length (ravel (entities self)) = (6 * ne self)%nat)
    by (rewrite ravel_length, Hne; reflexivity).
  rewrite _cost_rows by exact Hnc.
  rewrite transforms_in_range by exact Hx; simpl.
  rewrite Hcs; simpl.
  rewrite final_poses by exact Hx.
  rewrite Hne, poses_of_ravel; reflexivity.
Qed.

Lemma encode_decode_entities (locs : list (Location T)) (es : list (DOF6 T)) :
  mapM _locToDOF6 locs = Ok es -> mapM encode_decode locs = Ok (map encode es).
Proof.
  revert es; induction locs as [|loc locs IH]; intros es H.
  - injection H as <-; reflexivity.
  - change (mapM _locToDOF6 (loc :: locs))
      with (d <- _locToDOF6 loc ;; ds <- mapM _locToDOF6 locs ;; Ok (d :: ds)) in H.
    apply bind_Ok_inv in H as (d & Hd & H).
    apply bind_Ok_inv in H as (ds & Hds & H).
    injection H as <-.
    change (mapM encode_decode (loc :: locs))
      with (r <- encode_decode loc ;; rs <- mapM encode_decode locs ;; Ok (r :: rs)).
    rewrite (IH ds Hds).
    unfold encode_decode at 1; rewrite Hd.
    destruct d as [[[[[x y] z] a] b] c]; reflexivity.
Qed.

(** Without constraints [solve] returns [encode(decode(pose))] for every
    initial pose. *)
Lemma solve_without_constraints_from_poses (locs : list (Location T))
    (self : ConstraintSolver T) :
  __init__ locs [] = Ok self ->
  solve rotate one_evaluation self = mapM encode_decode locs.
Proof.
  intros Hself.
  destruct (__init___inv locs [] self Hself) as (Hinv & Hcs & _ & Hes).
  rewrite (solve_without_constraints self Hinv Hcs).
  symmetry; apply encode_decode_entities; exact Hes.
Qed.

(** C3, as the code has it.  If some marker pair formed by [zip] is one
    the residual loop refuses (its first marker is neither a point nor a
    direction, or is a direction whose partner is not one, or its second
    marker is neither), every residual evaluation raises, and [solve],
    whose optimizer starts with a residual evaluation, raises with it and
    returns no pose.  A point paired with a direction is not among the
    refused pairs. *)
Theorem refused_pair_aborts_solve (self : ConstraintSolver T) (k1 k2 : Z)
    (ms1 ms2 : list (ConstraintMarker T)) (m1 m2 : ConstraintMarker T) :
  solver_inv self ->
  In ((k1, k2), (ms1, ms2)) (constraints self) ->
  In (m1, m2) (combine ms1 ms2) ->
  pair_raises m1 m2 = true ->
  (forall x, exists e, _cost rotate self x = Raise e) /\
  (forall least_squares : list T -> list (list T) -> Optimizer T,
     (forall x0 sp, exists x k, least_squares x0 sp = Evaluate x k) ->
     exists e, solve rotate least_squares self = Raise e) /\
  (forall t1 t2 p d,
     pair_raises (gp_Pnt p) (gp_Dir d) = false /\
     marker_term rotate t1 t2 (gp_Pnt p) (gp_Dir d) =
     Ok (Modulus (vec_sub (Pnt_Transformed rotate p t1) (Dir_Transformed rotate d t2)))).
Proof.
  intros Hinv Hc Hin Hr.
  assert (Hf : forall x, exists e, _cost rotate self x = Raise e)
    by (apply _cost_raises with (1 := Hinv) (2 := Hc) (3 := Hin) (4 := Hr)).
  split; [exact Hf|]; split.
  - intros least_squares Hls; apply solve_raises; assumption.
  - intros t1 t2 p d; split; reflexivity.
Qed.

End DriverClaims.

(** C3 (counterexample).  The pair of a point and a direction does not
    share its kind, yet nothing is raised: the residual of [mixed_mate]
    between two bodies at rest is the distance 1 between the origin and the
    coordinates of the direction, and [solve] returns the two poses. *)
Lemma point_direction_pair_is_accepted :
  same_kind (T := float) (gp_Pnt origin) (gp_Dir unit_x) = false /\
  _cost Multiplied (bodies_at_rest 2 [mixed_mate]) (repeat 0%float 12) =
    Ok [1%float] /\
  solve Multiplied one_evaluation (bodies_at_rest 2 [mixed_mate]) =
    Ok [at_rest; at_rest].
Proof.
  split; [reflexivity|]; split; vm_compute; reflexivity.
Qed.

(** C3 at two bodies: a direction paired with a point aborts [solve]. *)
Lemma refused_pair_aborts_solve_two_bodies :
  exists e,
    solve (T := float) Multiplied one_evaluation
          (bodies_at_rest 2 [point_mate; refused_mate]) = Raise e.
Proof.
  destruct (refused_pair_aborts_solve (T := float) Multiplied
              (bodies_at_rest 2 [point_mate; refused_mate])
              0%Z 1%Z [gp_Dir unit_x] [gp_Pnt origin] (gp_Dir unit_x) (gp_Pnt origin))
    as (_ & Hsolve & _).
  - split; reflexivity.
  - right; left; reflexivity.
  - left; reflexivity.
  - reflexivity.
  - apply Hsolve.
    intros x0 sp; exists x0, (fun _ => Finish x0); reflexivity.
Defined.

Section RealDriverClaims.

Local Open Scope R_scope.

(** The poses of the kernel are decoded without exception. *)
Lemma kernel_poses_regular (locs : list (Location R)) :
  Forall kernel_pose locs -> existsb singular locs = false.
Proof.
  induction 1 as [|loc locs Hk _ IH]; [reflexivity|].
  cbn [existsb]; rewrite (kernel_pose_regular loc Hk), IH; reflexivity.
Qed.

Lemma at_rest_kernel_pose : kernel_pose (T := R) at_rest.
Proof.
  exists (mk_Quaternion 0 0 0 1)%R; split.
  - unfold SquareNorm; simpl; lra.
  - unfold at_rest, gp_Trsf_new, gp_Mat_Identity; cbn [wrapped HVectorialPart].
    rewrite GetMatrix_entries by lra.
    f_equal; simpl; field.
Qed.

Lemma pose_of_kernel_pose (v : gp_Vec R) (q : gp_Quaternion R) :
  SquareNorm q <> 0%R -> kernel_pose (pose_of v q).
Proof. intros Hq; exists q; split; [exact Hq | reflexivity]. Qed.

(** C5, in exact arithmetic.  Construction decodes every initial pose.
    The quaternion the kernel reports of a pose has norm 1 and [w > -1],
    so that no pose makes [_locToDOF6] divide by zero: construction
    completes and leaves a solver that satisfies its invariant.  On a
    solver so constructed, [solve] raises nothing when the entity indices
    are in range, no marker pair is one the residual loop refuses and the
    optimizer raises nothing of its own and keeps to vectors of [6·ne]
    parameters; an exception of the optimizer's own is the exception of
    [solve]. *)
Theorem construction_and_solve_errors
    (rotate : gp_Mat R -> gp_Vec R -> gp_Vec R)
    (locs : list (Location R)) (cs : Constraints R) :
  Forall kernel_pose locs ->
  Forall (fun loc =>
            SquareNorm (GetRotation (Transformation (wrapped loc))) = 1%R /\
            (-1 < qW (GetRotation (Transformation (wrapped loc))))%R) locs /\
  (exists self, __init__ locs cs = Ok self /\ solver_inv self /\
                constraints self = cs /\ ne self = length locs) /\
  (forall (self : ConstraintSolver R)
          (least_squares : list R -> list (list R) -> Optimizer R),
     __init__ locs cs = Ok self ->
     Forall (constraint_computes (length locs)) cs ->
     (forall x0 sp, length x0 = (6 * length locs)%nat ->
                    opt_wf (6 * length locs) (least_squares x0 sp)) ->
     exists poses, solve rotate least_squares self = Ok poses /\
                   length poses = length locs) /\
  (forall (self : ConstraintSolver R)
          (least_squares : list R -> list (list R) -> Optimizer R) (e : exn),
     __init__ locs cs = Ok self ->
     (forall x0 sp, least_squares x0 sp = Fail e) ->
     solve rotate least_squares self = Raise e).
Proof.
  intros Hk.
  split; [|split; [|split]].
  - eapply Forall_impl; [|exact Hk].
    intros loc Hloc; destruct (kernel_pose_reported loc Hloc) as [Hu Hw].
    split; [exact Hu | lra].
  - destruct (__init___regular locs cs (kernel_poses_regular locs Hk)) as (self & Hself).
    destruct (__init___inv locs cs self Hself) as (Hinv & Hcs & Hne & _).
    exists self; repeat (split; [assumption|]); assumption.
  - intros self least_squares Hself Hcomp Hls.
    destruct (__init___inv locs cs self Hself) as (Hinv & Hcs & Hne & _).
    rewrite <- Hne in *; rewrite <- Hcs in Hcomp.
    apply solve_computes; assumption.
  - intros self least_squares e Hself Hls.
    destruct (__init___inv locs cs self Hself) as (Hinv & _).
    unfold solve.
    rewrite _jacobianSparsity_rows by apply Hinv; cbn [bind].
    rewrite Hls; reflexivity.
Qed.

(** C5 (counterexample).  The pose that turns by exactly 180 degrees about
    the x axis: the kernel reports the quaternion (1, 0, 0, 0), with
    [w = 0], and construction decodes it to the finite parameters
    (0, 0, 0, 1, 0, 0).  The pose made from the quaternion (0, 0, 0, -1):
    the kernel reports (0, 0, 0, 1), and construction decodes it to six
    zeros.  Neither raises, neither yields a value that is not finite.
    And [solve] raises what the least-squares routine raises of its own:
    [ValueError] on the empty start vector of a solver without
    entities. *)
Lemma construction_decodes_half_turn :
  GetRotation
    (wrapped (pose_of origin (mk_Quaternion 1%float 0%float 0%float 0%float))) =
    mk_Quaternion 1%float 0%float 0%float 0%float /\
  __init__ [pose_of origin (mk_Quaternion 1%float 0%float 0%float 0%float)] [] =
    Ok (mk_ConstraintSolver
          [(0%float, 0%float, 0%float, 1%float, 0%float, 0%float)] [] 1%nat 0%nat) /\
  GetRotation
    (wrapped (pose_of origin (mk_Quaternion 0%float 0%float 0%float (-1)%float))) =
    mk_Quaternion 0%float 0%float 0%float 1%float /\
  __init__ [pose_of origin (mk_Quaternion 0%float 0%float 0%float (-1)%float)] [] =
    Ok (mk_ConstraintSolver
          [(0%float, 0%float, 0%float, 0%float, 0%float, 0%float)] [] 1%nat 0%nat) /\
  __init__ (T := float) [] [] = Ok (mk_ConstraintSolver [] [] 0%nat 0%nat) /\
  solve Multiplied rejects_empty_start
        (mk_ConstraintSolver (T := float) [] [] 0%nat 0%nat) =
    Raise ValueError.
Proof.
  split; [vm_compute; reflexivity|].
  split; [vm_compute; reflexivity|].
  split; [vm_compute; reflexivity|].
  split; [vm_compute; reflexivity|].
  split; vm_compute; reflexivity.
Qed.

(** C5 at two bodies, one at rest and one turned: construction and
    [solve] both return. *)
Lemma construction_and_solve_errors_two_bodies :
  exists self poses,
    __init__ (T := R)
      [at_rest; pose_of (mk_Vec 1 2 3) (mk_Quaternion (3 / 5) 0 0 (4 / 5))%R]
      [point_mate; mixed_mate] = Ok self /\
    solve Multiplied one_evaluation self = Ok poses /\
    length poses = 2%nat.
Proof.
  destruct (construction_and_solve_errors Multiplied
              [at_rest; pose_of (mk_Vec 1 2 3) (mk_Quaternion (3 / 5) 0 0 (4 / 5))%R]
              [point_mate; mixed_mate])
    as (_ & (self & Hinit & _) & Hsolve & _).
  - constructor; [exact at_rest_kernel_pose|].
    constructor; [|constructor].
    apply pose_of_kernel_pose; unfold SquareNorm; simpl; lra.
  - destruct (Hsolve self one_evaluation Hinit) as (poses & Hposes & Hlen).
    + repeat constructor; unfold index_in_range; simpl; lia.
    + intros x0 sp Hx0; constructor; [exact Hx0|].
      intros r; constructor; exact Hx0.
    + exists self, poses; split; [exact Hinit|]; split; assumption.
Defined.

(** C6 (evaluation of the code where the claim fails).  One entity, posed
    with translation (1, 2, 3) and the unit quaternion (3/5, 0, 0, 4/5), and
    no constraint: construction succeeds and [solve], with an optimizer
    that evaluates the empty residual once and returns its start vector,
    returns a pose with translation (0, 0, 0) and the rotation
    (15, 0, 0, 2) / √229, not the initial one. *)
Theorem solve_without_constraints_changes_pose
    (rotate : gp_Mat R -> gp_Vec R -> gp_Vec R) :
  let q := mk_Quaternion (3 / 5) 0 0 (4 / 5)%R in
  let pose := pose_of (mk_Vec 1 2 3)%R q in
  TranslationPart (Transformation (wrapped pose)) = (mk_Vec 1 2 3)%R /\
  GetRotation (Transformation (wrapped pose)) = q /\
  exists self pose',
    __init__ [pose] [] = Ok self /\
    solve rotate one_evaluation self = Ok [pose'] /\
    TranslationPart (Transformation (wrapped pose')) = (mk_Vec 0 0 0)%R /\
    GetRotation (Transformation (wrapped pose')) =
      (mk_Quaternion (15 / sqrt 229) 0 0 (2 / sqrt 229))%R.
Proof.
  intros q pose.
  assert (Hq : GetRotation (Transformation (wrapped pose)) = q).
  { unfold pose, pose_of, Transformation, GetRotation; cbn [wrapped HVectorialPart].
    unfold q; rewrite sample_matrix; exact sample_reported. }
  split; [reflexivity|].
  split; [exact Hq|].
  destruct (__init___regular [pose] []) as (self & Hself).
  { apply kernel_poses_regular; constructor; [|constructor].
    apply pose_of_kernel_pose; unfold q, SquareNorm; simpl; lra. }
  exists self; eexists; split; [exact Hself|].
  rewrite (solve_without_constraints_from_poses rotate [pose] self Hself).
  change (mapM encode_decode [pose])
    with (r <- encode_decode pose ;; rs <- Ok [] ;; Ok (r :: rs)).
  unfold pose, q; rewrite round_trip_of_sample_pose; cbn [bind].
  split; [reflexivity|].
  split; [reflexivity|].
  unfold Transformation, GetRotation; cbn [wrapped HVectorialPart].
  exact sample_rebuilt_reported.
Qed.

End RealDriverClaims.

(* ================================================================== *)
(** ** The code run in binary64 on small assemblies *)

(** [encode(1, 2, 3, 0, 0, 0)]: the identity, the translation is not kept. *)
Example build_transform_at_rest :
  _build_transform 1%float 2%float 3%float 0%float 0%float 0%float = gp_Trsf_new.
Proof. vm_compute; reflexivity. Qed.

(** [encode(0, 0, 0, 1, 0, 0)]: the quaternion handed to the kernel is
    (2, 0, 0, 0), the matrix is that of the half turn about the x axis, and
    the quaternion reported is (1, 0, 0, 0). *)
Example build_transform_half_turn :
  _build_transform 0%float 0%float 0%float 1%float 0%float 0%float =
    mk_Trsf (mk_Mat 1%float 0%float 0%float 0%float (-1)%float 0%float
                    0%float 0%float (-1)%float)
            (mk_Vec 0%float 0%float 0%float) /\
  GetRotation (_build_transform 0%float 0%float 0%float 1%float 0%float 0%float) =
    mk_Quaternion 1%float 0%float 0%float 0%float.
Proof. split; vm_compute; reflexivity. Qed.

(** One constraint between bodies 0 and 1 of three: twelve ones, then six
    zeros. *)
Example jacobianSparsity_three_bodies :
  _jacobianSparsity (bodies_at_rest 3 [point_mate]) =
  Ok [repeat 1%float 12 ++ repeat 0%float 6].
Proof. vm_compute; reflexivity. Qed.

(** The origin of body 0 against the point (1, 0, 0) of body 1, both at
    rest: the residual is 1.  It is 1 as well when the translation
    parameters of body 1 are (5, 0, 0). *)
Example cost_point_mate :
  _cost Multiplied
        (bodies_at_rest 2 [((0, 1)%Z, ([gp_Pnt origin], [gp_Pnt unit_x]))])
        (repeat 0%float 12) = Ok [1%float] /\
  _cost Multiplied
        (bodies_at_rest 2 [((0, 1)%Z, ([gp_Pnt origin], [gp_Pnt unit_x]))])
        (repeat 0%float 6 ++ [5%float; 0%float; 0%float; 0%float; 0%float; 0%float]) =
    Ok [1%float].
Proof. split; vm_compute; reflexivity. Qed.

(** The axes x and y of two bodies at rest: the raw dot product is 0. *)
Example cost_direction_mate :
  _cost Multiplied (bodies_at_rest 2 [direction_mate]) (repeat 0%float 12) =
  Ok [0%float].
Proof. vm_compute; reflexivity. Qed.

(** Body 1 turned by half a turn about the z axis ([c = 1]): the x axes of
    the two bodies are opposite, and the raw dot product is -1. *)
Example cost_direction_mate_turned :
  _cost Multiplied
        (bodies_at_rest 2 [((0, 1)%Z, ([gp_Dir unit_x], [gp_Dir unit_x]))])
        (repeat 0%float 6 ++ [0%float; 0%float; 0%float; 0%float; 0%float; 1%float]) =
  Ok [(-1)%float].
Proof. vm_compute; reflexivity. Qed.

(** A direction paired with a point is refused by the kernel's product. *)
Example cost_refused_mate :
  _cost Multiplied (bodies_at_rest 2 [refused_mate]) (repeat 0%float 12) =
  Raise TypeError.
Proof. vm_compute; reflexivity. Qed.

(** A first marker that is neither a point nor a direction. *)
Example cost_unknown_marker :
  _cost Multiplied
        (bodies_at_rest 2 [((0, 1)%Z, ([py_object], [gp_Pnt origin]))])
        (repeat 0%float 12) =
  Raise NotImplementedError.
Proof. vm_compute; reflexivity. Qed.

(** An entity index out of range is an [IndexError]. *)
Example cost_index_out_of_range :
  _cost Multiplied (bodies_at_rest 2 [((0, 2)%Z, ([], []))]) (repeat 0%float 12) =
  Raise IndexError.
Proof. vm_compute; reflexivity. Qed.

(** Outside the data model: the index [-1] reads the pose of the last body
    in the residual function, while the slice [-6 : 0] it gives in the
    sparsity pattern is empty. *)
Example negative_index_outside_the_data_model :
  _jacobianSparsity (bodies_at_rest 2 [((-1, -1)%Z, ([gp_Pnt origin], [gp_Pnt unit_x]))]) =
    Ok [repeat 0%float 12] /\
  _cost Multiplied
        (bodies_at_rest 2 [((-1, -1)%Z, ([gp_Pnt origin], [gp_Pnt unit_x]))])
        (repeat 0%float 12) = Ok [1%float].
Proof. split; vm_compute; reflexivity. Qed.

(** The round trip in binary64, on the pose whose rotation is the pair of
    floats nearest to (0.6, 0, 0, 0.8): the pose that comes back has no
    translation, and the [w] component the kernel reports of it is below
    0.14. *)
Example encode_decode_binary64 :
  exists loc',
    encode_decode
      (pose_of (mk_Vec 1%float 2%float 3%float)
         (mk_Quaternion 0x1.3333333333333p-1%float 0%float 0%float
                        0x1.999999999999ap-1%float)) = Ok loc' /\
    TranslationPart (wrapped loc') = origin /\
    PrimFloat.ltb (qW (GetRotation (wrapped loc'))) 0x1.1eb851eb851ecp-3%float = true /\
    PrimFloat.ltb 0x1.fae147ae147aep-1%float (qX (GetRotation (wrapped loc'))) = true.
Proof. eexists; split; [|split; [|split]]; vm_compute; reflexivity. Qed.

(* ================================================================== *)
(** ** Further properties of the pose codec *)

Section CodecCompositions.

Local Open Scope R_scope.

(** X3.  Decoding over the reals, as a function of the translation [v] and
    of the quaternion [q] the kernel reports of the pose.  [_locToDOF6]
    raises [ZeroDivisionError] when [1 + w = 0]; otherwise it returns the
    translation unchanged and the vector part of the quaternion divided by
    [1 + w], and for a unit quaternion the three rotation parameters have
    the squared length [(1 - w) / (1 + w)], from which [w] can be
    recovered. *)
Theorem locToDOF6_projection (loc : Location R) :
  let v := TranslationPart (Transformation (wrapped loc)) in
  let q := GetRotation (Transformation (wrapped loc)) in
  (1 + qW q = 0 -> _locToDOF6 loc = Raise ZeroDivisionError) /\
  (1 + qW q <> 0 ->
   _locToDOF6 loc =
   Ok (vX v, vY v, vZ v, qX q / (1 + qW q), qY q / (1 + qW q), qZ q / (1 + qW q))) /\
  (1 + qW q <> 0 -> SquareNorm q = 1 ->
   (qX q / (1 + qW q)) * (qX q / (1 + qW q))
   + (qY q / (1 + qW q)) * (qY q / (1 + qW q))
   + (qZ q / (1 + qW q)) * (qZ q / (1 + qW q)) = (1 - qW q) / (1 + qW q)).
Proof.
  intros v q; split; [|split].
  - intros Hw; apply _locToDOF6_singular.
    unfold singular; fold q.
    apply neqb_R_same; exact Hw.
  - apply _locToDOF6_R.
  - destruct q as [qx qy qz w]; unfold SquareNorm; simpl; intros Hw Hu.
    transitivity ((qx * qx + qy * qy + qz * qz) / ((1 + w) * (1 + w)));
      [field; exact Hw|].
    replace (qx * qx + qy * qy + qz * qz) with ((1 - w) * (1 + w)) by lra.
    field; exact Hw.
Qed.

Lemma locToDOF6_projection_sample :
  _locToDOF6 (pose_of (mk_Vec 1 2 3) (mk_Quaternion (3 / 5) 0 0 (4 / 5))) =
  Ok (1, 2, 3, 3 / 5 / (1 + 4 / 5), 0 / (1 + 4 / 5), 0 / (1 + 4 / 5)).
Proof.
  pose proof (proj1 (proj2 (locToDOF6_projection
                (pose_of (mk_Vec 1 2 3) (mk_Quaternion (3 / 5) 0 0 (4 / 5)))))) as H.
  cbv zeta in H; rewrite sample_pose_reported in H.
  apply H; simpl; lra.
Defined.

(** X4.  The round trip [encode(decode(pose))] over the reals.  It is
    defined on every pose of the kernel, and what it returns is a pose of
    the kernel with the translation (0, 0, 0), whatever the translation of
    the pose was, and a rotation quaternion of norm 1. *)
Theorem encode_decode_resets_translation (loc : Location R) :
  kernel_pose loc ->
  exists loc',
    encode_decode loc = Ok loc' /\
    TranslationPart (Transformation (wrapped loc')) = mk_Vec 0 0 0 /\
    SquareNorm (GetRotation (Transformation (wrapped loc'))) = 1 /\
    kernel_pose loc'.
Proof.
  intros Hk.
  destruct (_locToDOF6_regular loc (kernel_pose_regular loc Hk)) as (d & Hd).
  destruct d as [[[[[x y] z] a] b] c].
  exists (mk_Location (_build_transform x y z a b c)).
  split; [unfold encode_decode; rewrite Hd; reflexivity|].
  split; [reflexivity|].
  split; [apply build_transform_reported|].
  exists (build_quaternion a b c); split; [|reflexivity].
  pose proof (build_quaternion_norm_ge_1 a b c) as H; intros E.
  change (@num0 R R_arith) with 0 in E; rewrite E in H; lra.
Qed.

Lemma encode_decode_resets_translation_sample :
  exists loc',
    encode_decode (pose_of (mk_Vec 1 2 3) (mk_Quaternion (3 / 5) 0 0 (4 / 5))) = Ok loc' /\
    TranslationPart (Transformation (wrapped loc')) = mk_Vec 0 0 0.
Proof.
  destruct (encode_decode_resets_translation
              (pose_of (mk_Vec 1 2 3) (mk_Quaternion (3 / 5) 0 0 (4 / 5))))
    as (loc' & Hloc & Htr & _).
  - apply pose_of_kernel_pose; unfold SquareNorm; simpl; lra.
  - exists loc'; split; assumption.
Defined.

End CodecCompositions.

(* ================================================================== *)
(** ** Further properties of the sparsity pattern *)

Section SparsityEdges.

Context {T : Type} `{AT : Arith T}.

Lemma assign_slice_commute (row : list T) (a1 a2 b1 b2 : Z) (v : T) :
  assign_slice (assign_slice row a1 a2 v) b1 b2 v =
  assign_slice (assign_slice row b1 b2 v) a1 a2 v.
Proof.
  apply (nth_ext _ _ v v).
  - rewrite !assign_slice_length; reflexivity.
  - intros j Hj; rewrite !assign_slice_length in Hj.
    rewrite !assign_slice_nth by (rewrite ?assign_slice_length; exact Hj).
    rewrite !assign_slice_length.
    destruct ((slice_bound (length row) b1 <=? j)%nat
              && (j <? slice_bound (length row) b2)%nat),
             ((slice_bound (length row) a1 <=? j)%nat
              && (j <? slice_bound (length row) a2)%nat); reflexivity.
Qed.

Lemma assign_slice_outside (row : list T) (lo hi : Z) (v : T) :
  (length row <= slice_bound (length row) lo)%nat ->
  assign_slice row lo hi v = row.
Proof.
  intros Hlo; apply (nth_ext _ _ v v).
  - apply assign_slice_length.
  - intros j Hj; rewrite assign_slice_length in Hj.
    rewrite assign_slice_nth by exact Hj.
    destruct (Nat.leb_spec (slice_bound (length row) lo) j); [lia | reflexivity].
Qed.

Lemma assign_slice_Forall (P : T -> Prop) (row : list T) (lo hi : Z) (v : T) :
  P v -> Forall P row -> Forall P (assign_slice row lo hi v).
Proof.
  intros Hv Hrow; unfold assign_slice.
  apply Forall_forall; intros w Hw.
  apply in_map_iff in Hw as ([j old] & <- & Hin).
  apply in_combine_r in Hin.
  destruct ((_ <=? j)%nat && (j <? _)%nat); [exact Hv|].
  apply (proj1 (Forall_forall P row) Hrow); exact Hin.
Qed.

Lemma sparsity_row_swap_sides (n : nat) (c : (Z * Z) * Constraint T) :
  sparsity_row n (swap_sides c) = sparsity_row n c.
Proof.
  destruct c as [[k1 k2] [ms1 ms2]]; unfold swap_sides, sparsity_row.
  apply assign_slice_commute.
Qed.

Lemma sparsity_row_keys (n : nat) (c c' : (Z * Z) * Constraint T) :
  fst c = fst c' -> sparsity_row n c = sparsity_row n c'.
Proof.
  destruct c as [[k1 k2] m], c' as [[k1' k2'] m']; simpl; intros E.
  injection E as -> ->; reflexivity.
Qed.

(** The sparsity pattern does not tell the two sides of a constraint
    apart: a solver constructed with every constraint read from its other
    side ([(k2, k1)] with [(ms2, ms1)]) has the same pattern. *)
Theorem jacobianSparsity_symmetric_in_sides (locs : list (Location T))
    (cs : Constraints T) (self self' : ConstraintSolver T) :
  __init__ locs cs = Ok self ->
  __init__ locs (map swap_sides cs) = Ok self' ->
  _jacobianSparsity self' = _jacobianSparsity self.
Proof.
  intros Hs Hs'.
  destruct (__init___inv _ _ _ Hs) as ((_ & Hnc) & Hcs & Hne & _).
  destruct (__init___inv _ _ _ Hs') as ((_ & Hnc') & Hcs' & Hne' & _).
  rewrite !_jacobianSparsity_rows by assumption.
  rewrite Hcs, Hcs', Hne, Hne', map_map.
  f_equal; apply map_ext; intros c; apply sparsity_row_swap_sides.
Qed.

(** The pattern is read off the keys and the entity count alone: the
    markers of the constraints and the poses of the entities do not enter
    it. *)
Theorem jacobianSparsity_depends_on_keys (self self' : ConstraintSolver T) :
  solver_inv self -> solver_inv self' ->
  ne self = ne self' ->
  map fst (constraints self) = map fst (constraints self') ->
  _jacobianSparsity self = _jacobianSparsity self'.
Proof.
  intros [_ Hnc] [_ Hnc'] Hne Hkeys.
  rewrite !_jacobianSparsity_rows by assumption.
  rewrite <- Hne; f_equal.
  revert Hkeys; generalize (constraints self'); clear Hnc Hnc' Hne.
  induction (constraints self) as [|c cs IH]; intros [|c' cs'] Hkeys;
    try discriminate Hkeys; [reflexivity|].
  simpl in Hkeys; injection Hkeys as Hc Hcs.
  simpl; rewrite (sparsity_row_keys (ne self) c c' Hc), (IH cs' Hcs); reflexivity.
Qed.

(** Building the pattern never raises, whatever the entity indices are,
    and every entry of its [nc] rows of [6·ne] columns is 0 or 1. *)
Theorem jacobianSparsity_zero_one (self : ConstraintSolver T) :
  solver_inv self ->
  exists rv,
    _jacobianSparsity self = Ok rv /\ length rv = nc self /\
    Forall (fun row => length row = (6 * ne self)%nat /\ Forall zero_or_one row) rv.
Proof.
  intros [_ Hnc].
  exists (map (sparsity_row (ne self)) (constraints self)).
  split; [apply _jacobianSparsity_rows; exact Hnc|].
  split; [rewrite length_map; symmetry; exact Hnc|].
  apply Forall_forall; intros row Hrow.
  apply in_map_iff in Hrow as ([[k1 k2] c] & <- & _).
  split; [apply sparsity_row_length|].
  unfold sparsity_row.
  apply assign_slice_Forall; [right; reflexivity|].
  apply assign_slice_Forall; [right; reflexivity|].
  apply Forall_forall; intros v Hv.
  apply repeat_spec in Hv; left; exact Hv.
Qed.

(** Slices clip: an entity index [k >= ne] on both sides of a key raises
    nothing in the pattern and leaves its row all zero. *)
Theorem jacobianSparsity_clips_large_index (self : ConstraintSolver T) (i : nat)
    (k1 k2 : Z) (c : Constraint T) :
  solver_inv self ->
  nth_error (constraints self) i = Some ((k1, k2), c) ->
  (Z.of_nat (ne self) <= k1)%Z -> (Z.of_nat (ne self) <= k2)%Z ->
  exists rv,
    _jacobianSparsity self = Ok rv /\
    nth_error rv i = Some (repeat num0 (6 * ne self)).
Proof.
  intros [_ Hnc] Hi H1 H2.
  exists (map (sparsity_row (ne self)) (constraints self)).
  split; [apply _jacobianSparsity_rows; exact Hnc|].
  rewrite (map_nth_error _ _ _ Hi); f_equal.
  unfold sparsity_row.
  assert (Hb : forall k, (Z.of_nat (ne self) <= k)%Z ->
               slice_bound (6 * ne self) (6 * k) = (6 * ne self)%nat).
  { intros k Hk; unfold slice_bound.
    destruct (Z.ltb_spec (6 * k) 0); lia. }
  rewrite (assign_slice_outside (repeat num0 (6 * ne self)))
    by (rewrite repeat_length, (Hb k1 H1); lia).
  apply assign_slice_outside; rewrite repeat_length, (Hb k2 H2); lia.
Qed.

End SparsityEdges.

Lemma jacobianSparsity_symmetric_in_sides_three_bodies :
  _jacobianSparsity (T := float)
    (bodies_at_rest 3 (map swap_sides [mixed_mate; ((2, 0)%Z, ([], []))])) =
  _jacobianSparsity (bodies_at_rest 3 [mixed_mate; ((2, 0)%Z, ([], []))]).
Proof.
  apply (jacobianSparsity_symmetric_in_sides (T := float)
           [at_rest; at_rest; at_rest] [mixed_mate; ((2, 0)%Z, ([], []))]);
    vm_compute; reflexivity.
Defined.

Lemma jacobianSparsity_depends_on_keys_two_bodies :
  _jacobianSparsity (T := float) (bodies_at_rest 2 [point_mate]) =
  _jacobianSparsity (mk_ConstraintSolver [rest; (1, 2, 3, 1, 0, 0)%float]
                                         [direction_mate] 2 1).
Proof.
  apply (jacobianSparsity_depends_on_keys (T := float)).
  - split; reflexivity.
  - split; reflexivity.
  - reflexivity.
  - reflexivity.
Defined.

Lemma jacobianSparsity_zero_one_two_bodies :
  exists rv,
    _jacobianSparsity (T := float) (bodies_at_rest 2 [((-3, 7)%Z, ([], []))]) = Ok rv /\
    length rv = 1%nat.
Proof.
  destruct (jacobianSparsity_zero_one (T := float)
              (bodies_at_rest 2 [((-3, 7)%Z, ([], []))])) as (rv & Hrv & Hlen & _).
  - split; reflexivity.
  - exists rv; split; [exact Hrv | exact Hlen].
Defined.

Lemma jacobianSparsity_clips_large_index_two_bodies :
  exists rv,
    _jacobianSparsity (T := float) (bodies_at_rest 2 [point_mate; ((2, 5)%Z, ([], []))])
      = Ok rv /\
    nth_error rv 1 = Some (repeat 0%float 12).
Proof.
  destruct (jacobianSparsity_clips_large_index (T := float)
              (bodies_at_rest 2 [point_mate; ((2, 5)%Z, ([], []))]) 1 2%Z 5%Z ([], []))
    as (rv & Hrv & Hrow).
  - split; reflexivity.
  - reflexivity.
  - simpl; lia.
  - simpl; lia.
  - exists rv; split; [exact Hrv | exact Hrow].
Defined.

(* ================================================================== *)
(** ** Further properties of the residual function: errors and edges *)

Section CostEdges.

Context {T : Type} `{AT : Arith T}.

Variable rotate : gp_Mat T -> gp_Vec T -> gp_Vec T.

Lemma mapM_app {A B : Type} (f : A -> result B) (l1 l2 : list A) :
  mapM f (l1 ++ l2) =
  (r1 <- mapM f l1 ;; r2 <- mapM f l2 ;; Ok (r1 ++ r2)).
Proof.
  induction l1 as [|a l1 IH]; simpl.
  - destruct (mapM f l2); reflexivity.
  - destruct (f a) as [b|e]; simpl; [|reflexivity].
    rewrite IH.
    destruct (mapM f l1) as [r1|e]; simpl; [|reflexivity].
    destruct (mapM f l2) as [r2|e]; reflexivity.
Qed.

Lemma mapM_cons {A B : Type} (f : A -> result B) (a : A) (l : list A) :
  mapM f (a :: l) = (b <- f a ;; bs <- mapM f l ;; Ok (b :: bs)).
Proof. reflexivity. Qed.

Lemma py_slice_length {A : Type} (l : list A) (lo hi : Z) :
  (length (py_slice l lo hi) <= length l - slice_bound (length l) lo)%nat.
Proof.
  unfold py_slice; rewrite length_firstn, length_skipn; lia.
Qed.

Lemma build_slice_Raise_inv (x : list T) (i : nat) (e : exn) :
  build_slice x i = Raise e -> e = TypeError.
Proof.
  unfold build_slice.
  destruct (py_slice x _ _) as [|? [|? [|? [|? [|? [|? [|? ?]]]]]]];
    intros H; try (injection H as <-; reflexivity); discriminate H.
Qed.

Lemma build_slice_short (x : list T) (i : nat) :
  (length x < 6 * (i + 1))%nat -> build_slice x i = Raise TypeError.
Proof.
  intros Hx; unfold build_slice.
  pose proof (py_slice_length x (6 * Z.of_nat i) (6 * (Z.of_nat i + 1))) as Hlen.
  assert (Hs : (length x - slice_bound (length x) (6 * Z.of_nat i) < 6)%nat).
  { unfold slice_bound; destruct (Z.ltb_spec (6 * Z.of_nat i) 0); [lia|].
    destruct (Z.min_spec (6 * Z.of_nat i) (Z.of_nat (length x))) as [[Hlt ->]|[Hge ->]]; lia. }
  destruct (py_slice x _ _) as [|? [|? [|? [|? [|? [|? [|? ?]]]]]]];
    try reflexivity; cbn [length] in Hlen; lia.
Qed.

Lemma build_slice_enough (x : list T) (i : nat) :
  (6 * (i + 1) <= length x)%nat -> build_slice x i = Ok (pose_at x i).
Proof.
  intros Hx; unfold build_slice, py_slice.
  rewrite !slice_bound_in_range by lia.
  replace (Z.to_nat (6 * (Z.of_nat i + 1)) - Z.to_nat (6 * Z.of_nat i))%nat with 6%nat by lia.
  replace (Z.to_nat (6 * Z.of_nat i)) with (6 * i)%nat by lia.
  rewrite (firstn_six _ num0) by (rewrite length_skipn; lia).
  rewrite !nth_skipn_add.
  unfold pose_at; rewrite Nat.add_0_r; reflexivity.
Qed.

Lemma py_getitem_Raise_inv {A : Type} (l : list A) (k : Z) (e : exn) :
  py_getitem l k = Raise e -> e = IndexError.
Proof.
  unfold py_getitem.
  destruct (_ && _)%bool; [destruct (nth_error l _)|]; intros H;
    try discriminate H; injection H as <-; reflexivity.
Qed.

Lemma py_getitem_rejected {A : Type} (l : list A) (k : Z) :
  ~ index_accepted (length l) k -> py_getitem l k = Raise IndexError.
Proof.
  unfold index_accepted, py_getitem; intros Hk.
  destruct (Z.ltb_spec k 0).
  - destruct (Z.leb_spec 0 (k + Z.of_nat (length l))); [lia | reflexivity].
  - destruct (Z.leb_spec 0 k); [|reflexivity].
    destruct (Z.ltb_spec k (Z.of_nat (length l))); [lia | reflexivity].
Qed.

Lemma py_getitem_from_the_end {A : Type} (l : list A) (k : Z) :
  (0 <= k < Z.of_nat (length l))%Z ->
  py_getitem l (k - Z.of_nat (length l)) = py_getitem l k.
Proof.
  intros Hk; unfold py_getitem.
  destruct (Z.ltb_spec (k - Z.of_nat (length l)) 0); [|lia].
  destruct (Z.ltb_spec k 0); [lia|].
  replace (k - Z.of_nat (length l) + Z.of_nat (length l))%Z with k by lia.
  reflexivity.
Qed.

Lemma row_value_Raise_index (ts : list (gp_Trsf T)) (k1 k2 : Z)
    (m : Constraint T) :
  ~ index_accepted (length ts) k1 \/ ~ index_accepted (length ts) k2 ->
  row_value rotate ts ((k1, k2), m) = Raise IndexError.
Proof.
  intros Hk; destruct m as [ms1 ms2]; unfold row_value.
  destruct (py_getitem ts k1) as [t1|e] eqn:E1; simpl.
  - destruct Hk as [Hk|Hk];
      [rewrite (py_getitem_rejected ts k1 Hk) in E1; discriminate E1|].
    rewrite (py_getitem_rejected ts k2 Hk); reflexivity.
  - rewrite (py_getitem_Raise_inv ts k1 e E1); reflexivity.
Qed.

Lemma rows_compute (x : list T) (n : nat) (cs : Constraints T) :
  Forall (constraint_computes n) cs ->
  exists rows, mapM (row_value rotate (map (pose_at x) (seq 0 n))) cs = Ok rows.
Proof.
  intros Hcs; apply mapM_all_Ok.
  apply Forall_impl with (2 := Hcs).
  intros [[k1 k2] [ms1 ms2]] (H1 & H2 & Hps); unfold row_value.
  rewrite !transforms_getitem by assumption; simpl.
  apply residual_sum_computes; exact Hps.
Qed.

(** A parameter vector shorter than [6·ne] makes every residual
    evaluation raise [TypeError]: some block cannot be unpacked into the
    six arguments of [_build_transform]. *)
Theorem cost_short_vector_raises (self : ConstraintSolver T) (x : list T) :
  (length x < 6 * ne self)%nat -> _cost rotate self x = Raise TypeError.
Proof.
  intros Hx; unfold _cost.
  destruct (mapM (build_slice x) (seq 0 (ne self))) as [ts|e] eqn:E; simpl.
  - exfalso.
    assert (Hin : nth_error (seq 0 (ne self)) (ne self - 1) = Some (ne self - 1)%nat).
    { rewrite nth_error_nth' with (d := 0%nat) by (rewrite length_seq; lia).
      rewrite seq_nth by lia; reflexivity. }
    destruct (mapM_Ok_nth _ _ _ _ _ E Hin) as (t & Ht & _).
    rewrite build_slice_short in Ht by lia; discriminate Ht.
  - apply mapM_Raise_inv in E as (i & _ & Hi).
    rewrite (build_slice_Raise_inv x i e Hi); reflexivity.
Qed.

(** Parameters beyond the first [6·ne] are never read: appending anything
    to a vector of length [6·ne] changes neither the residual vector nor
    the exception raised. *)
Theorem cost_ignores_trailing_parameters (self : ConstraintSolver T)
    (x extra : list T) :
  length x = (6 * ne self)%nat ->
  _cost rotate self (x ++ extra) = _cost rotate self x.
Proof.
  intros Hx; unfold _cost.
  replace (mapM (build_slice (x ++ extra)) (seq 0 (ne self)))
    with (mapM (build_slice x) (seq 0 (ne self))); [reflexivity|].
  apply mapM_ext_in; intros i Hi; apply in_seq in Hi.
  rewrite !build_slice_enough by (rewrite ?length_app; lia).
  unfold pose_at; rewrite !app_nth1 by lia; reflexivity.
Qed.

(** An entity index that [transforms[k]] does not accept (outside
    [[-ne, ne)]) makes the residual function raise [IndexError], as soon
    as the constraints before it have been evaluated; the markers of the
    constraint are not looked at. *)
Theorem cost_rejects_index (self : ConstraintSolver T) (x : list T)
    (cs1 cs2 : Constraints T) (k1 k2 : Z) (m : Constraint T) :
  solver_inv self -> length x = (6 * ne self)%nat ->
  constraints self = cs1 ++ ((k1, k2), m) :: cs2 ->
  Forall (constraint_computes (ne self)) cs1 ->
  ~ index_accepted (ne self) k1 \/ ~ index_accepted (ne self) k2 ->
  _cost rotate self x = Raise IndexError.
Proof.
  intros [_ Hnc] Hx Hcs Hcs1 Hk.
  rewrite _cost_rows by exact Hnc.
  rewrite transforms_in_range by exact Hx; simpl.
  rewrite Hcs, mapM_app.
  destruct (rows_compute x (ne self) cs1 Hcs1) as (rows & ->).
  rewrite mapM_cons, row_value_Raise_index; [reflexivity|].
  rewrite length_map, length_seq; exact Hk.
Qed.

(** Negative entity indices count from the end in the residual function:
    writing [k - ne] for the in-range indices [k] of a key leaves the
    residual vector, or the exception, unchanged. *)
Theorem cost_counts_negative_index_from_the_end (locs : list (Location T))
    (cs1 cs2 : Constraints T) (k1 k2 : Z) (m : Constraint T)
    (self self' : ConstraintSolver T) (x : list T) :
  __init__ locs (cs1 ++ ((k1, k2), m) :: cs2) = Ok self ->
  __init__ locs (cs1 ++ ((k1 - Z.of_nat (length locs), k2 - Z.of_nat (length locs))%Z, m)
                     :: cs2) = Ok self' ->
  index_in_range (length locs) k1 -> index_in_range (length locs) k2 ->
  _cost rotate self' x = _cost rotate self x.
Proof.
  intros Hs Hs' H1 H2.
  destruct (__init___inv _ _ _ Hs) as ((_ & Hnc) & Hcs & Hne & _).
  destruct (__init___inv _ _ _ Hs') as ((_ & Hnc') & Hcs' & Hne' & _).
  rewrite !_cost_rows by assumption.
  rewrite Hcs, Hcs', Hne, Hne'.
  destruct (mapM (build_slice x) (seq 0 (length locs))) as [ts|e] eqn:E; simpl;
    [|reflexivity].
  apply mapM_Ok_length in E; rewrite length_seq in E.
  rewrite !mapM_app, !mapM_cons.
  replace (row_value rotate ts
             ((k1 - Z.of_nat (length locs), k2 - Z.of_nat (length locs))%Z, m))
    with (row_value rotate ts ((k1, k2), m)); [reflexivity|].
  destruct m as [ms1 ms2]; unfold row_value.
  rewrite <- E, !py_getitem_from_the_end by (rewrite E; assumption).
  reflexivity.
Qed.

(** In the sparsity pattern the index [-1] is not the last body: the
    slice [-6 : 0] it gives is empty, and the row of a key [(-1, -1)] is
    all zero. *)
Theorem jacobianSparsity_misses_index_minus_one (self : ConstraintSolver T) (i : nat)
    (m : Constraint T) :
  solver_inv self ->
  nth_error (constraints self) i = Some ((-1, -1)%Z, m) ->
  exists rv,
    _jacobianSparsity self = Ok rv /\
    nth_error rv i = Some (repeat num0 (6 * ne self)).
Proof.
  intros [_ Hnc] Hi.
  exists (map (sparsity_row (ne self)) (constraints self)).
  split; [apply _jacobianSparsity_rows; exact Hnc|].
  rewrite (map_nth_error _ _ _ Hi); f_equal.
  unfold sparsity_row.
  assert (Hempty : forall row : list T, assign_slice row (6 * -1) (6 * (-1 + 1)) num1 = row).
  { intros row; apply (nth_ext _ _ num0 num0); [apply assign_slice_length|].
    intros j Hj; rewrite assign_slice_length in Hj.
    rewrite assign_slice_nth by exact Hj.
    replace (slice_bound (length row) (6 * (-1 + 1))) with 0%nat
      by (unfold slice_bound; simpl; lia).
    rewrite andb_false_r; reflexivity. }
  rewrite !Hempty; reflexivity.
Qed.

(** [NotImplementedError] has one source: if a residual evaluation raises
    it, some constraint has, among the pairs [zip] forms, a first marker
    that is neither a point nor a direction. *)
Theorem cost_not_implemented_source (self : ConstraintSolver T) (x : list T) :
  solver_inv self ->
  _cost rotate self x = Raise NotImplementedError ->
  exists k1 k2 ms1 ms2 m2,
    In ((k1, k2), (ms1, ms2)) (constraints self) /\
    In (py_object, m2) (combine ms1 ms2).
Proof.
  intros [_ Hnc] H.
  rewrite _cost_rows in H by exact Hnc.
  destruct (mapM (build_slice x) (seq 0 (ne self))) as [ts|e] eqn:E; simpl in H.
  - apply mapM_Raise_inv in H as ([[k1 k2] [ms1 ms2]] & Hin & Hrow).
    exists k1, k2, ms1, ms2.
    unfold row_value in Hrow.
    destruct (py_getitem ts k1) as [t1|e1] eqn:E1; simpl in Hrow;
      [|apply py_getitem_Raise_inv in E1; congruence].
    destruct (py_getitem ts k2) as [t2|e2] eqn:E2; simpl in Hrow;
      [|apply py_getitem_Raise_inv in E2; congruence].
    assert (Hps : exists m2, In (py_object, m2) (combine ms1 ms2));
      [|destruct Hps as (m2 & Hm2); exists m2; split; assumption].
    revert Hrow; generalize (@num0 T AT).
    induction (combine ms1 ms2) as [|[m1 m2] ps IH]; intros acc Hrow;
      [discriminate Hrow|].
    simpl in Hrow.
    destruct m1 as [p|d|].
    + destruct m2; simpl in Hrow; try discriminate Hrow;
        destruct (IH _ Hrow) as (m & Hm); exists m; right; exact Hm.
    + destruct m2; simpl in Hrow; try discriminate Hrow;
        destruct (IH _ Hrow) as (m & Hm); exists m; right; exact Hm.
    + exists m2; left; reflexivity.
  - injection H as ->.
    apply mapM_Raise_inv in E as (i & _ & Hi).
    apply build_slice_Raise_inv in Hi; discriminate Hi.
Qed.

(** A constraint with no marker on one of its sides contributes the
    residual 0: [zip] forms no pair and the row keeps its initial value. *)
Theorem cost_row_without_pairs (self : ConstraintSolver T) (x : list T) (i : nat)
    (k1 k2 : Z) (ms1 ms2 : list (ConstraintMarker T)) :
  solver_inv self -> length x = (6 * ne self)%nat ->
  Forall (constraint_computes (ne self)) (constraints self) ->
  nth_error (constraints self) i = Some ((k1, k2), (ms1, ms2)) ->
  ms1 = [] \/ ms2 = [] ->
  exists rv, _cost rotate self x = Ok rv /\ nth_error rv i = Some num0.
Proof.
  intros [_ Hnc] Hx Hcs Hi Hempty.
  rewrite _cost_rows by exact Hnc.
  rewrite transforms_in_range by exact Hx; simpl.
  destruct (rows_compute x (ne self) (constraints self) Hcs) as (rows & Hrows).
  exists rows; split; [exact Hrows|].
  destruct (mapM_Ok_nth _ _ _ _ _ Hrows Hi) as (v & Hv & Hnth).
  rewrite Hnth; f_equal.
  pose proof (proj1 (Forall_forall _ _) Hcs _ (nth_error_In _ _ Hi)) as (H1 & H2 & _).
  unfold row_value in Hv.
  rewrite !transforms_getitem in Hv by assumption; simpl in Hv.
  assert (Hc : combine ms1 ms2 = [])
    by (destruct Hempty as [-> | ->]; [reflexivity | destruct ms1; reflexivity]).
  rewrite Hc in Hv; simpl in Hv; injection Hv as <-; reflexivity.
Qed.

End CostEdges.

Lemma cost_short_vector_raises_two_bodies :
  _cost Multiplied (bodies_at_rest 2 [point_mate]) (repeat 0%float 11) =
  Raise TypeError.
Proof.
  apply (cost_short_vector_raises Multiplied
           (bodies_at_rest 2 [point_mate]) (repeat 0%float 11)).
  simpl; lia.
Defined.

Lemma cost_ignores_trailing_parameters_two_bodies :
  _cost Multiplied (bodies_at_rest 2 [point_mate])
        (repeat 0%float 12 ++ [1%float; 2%float]) =
  _cost Multiplied (bodies_at_rest 2 [point_mate]) (repeat 0%float 12).
Proof.
  apply (cost_ignores_trailing_parameters Multiplied
           (bodies_at_rest 2 [point_mate]) (repeat 0%float 12) [1%float; 2%float]).
  reflexivity.
Defined.

Lemma cost_rejects_index_two_bodies :
  _cost Multiplied
        (bodies_at_rest 2 [point_mate; ((0, 2)%Z, ([py_object], []))])
        (repeat 0%float 12) = Raise IndexError.
Proof.
  apply (cost_rejects_index Multiplied
           (bodies_at_rest 2 [point_mate; ((0, 2)%Z, ([py_object], []))])
           (repeat 0%float 12) [point_mate] [] 0%Z 2%Z ([py_object], [])).
  - split; reflexivity.
  - reflexivity.
  - reflexivity.
  - repeat constructor; unfold index_in_range; simpl; lia.
  - right; unfold index_accepted; simpl; lia.
Defined.

Lemma cost_counts_negative_index_from_the_end_two_bodies :
  _cost Multiplied
        (bodies_at_rest 2 [((-2, -1)%Z, ([gp_Pnt origin], [gp_Pnt unit_x]))])
        (repeat 0%float 12) =
  _cost Multiplied
        (bodies_at_rest 2 [((0, 1)%Z, ([gp_Pnt origin], [gp_Pnt unit_x]))])
        (repeat 0%float 12).
Proof.
  apply (cost_counts_negative_index_from_the_end (T := float) Multiplied
           [at_rest; at_rest] [] [] 0%Z 1%Z ([gp_Pnt origin], [gp_Pnt unit_x])).
  - vm_compute; reflexivity.
  - vm_compute; reflexivity.
  - unfold index_in_range; simpl; lia.
  - unfold index_in_range; simpl; lia.
Defined.

Lemma jacobianSparsity_misses_index_minus_one_two_bodies :
  exists rv,
    _jacobianSparsity (T := float)
      (bodies_at_rest 2 [((-1, -1)%Z, ([gp_Pnt origin], [gp_Pnt unit_x]))]) = Ok rv /\
    nth_error rv 0 = Some (repeat 0%float 12).
Proof.
  destruct (jacobianSparsity_misses_index_minus_one (T := float)
              (bodies_at_rest 2 [((-1, -1)%Z, ([gp_Pnt origin], [gp_Pnt unit_x]))])
              0 ([gp_Pnt origin], [gp_Pnt unit_x])) as (rv & Hrv & Hrow).
  - split; reflexivity.
  - reflexivity.
  - exists rv; split; [exact Hrv | exact Hrow].
Defined.

Lemma cost_not_implemented_source_two_bodies :
  exists k1 k2 ms1 ms2 m2,
    In ((k1, k2), (ms1, ms2))
       (constraints (T := float)
          (bodies_at_rest 2 [point_mate; ((0, 1)%Z, ([py_object], [gp_Pnt origin]))])) /\
    In (py_object, m2) (combine ms1 ms2).
Proof.
  apply (cost_not_implemented_source (T := float) Multiplied
           (bodies_at_rest 2 [point_mate; ((0, 1)%Z, ([py_object], [gp_Pnt origin]))])
           (repeat 0%float 12)).
  - split; reflexivity.
  - vm_compute; reflexivity.
Defined.

Lemma cost_row_without_pairs_two_bodies :
  exists rv,
    _cost Multiplied
          (bodies_at_rest 2 [point_mate; ((0, 1)%Z, ([], [gp_Pnt origin]))])
          (repeat 0%float 12) = Ok rv /\
    nth_error rv 1 = Some 0%float.
Proof.
  destruct (cost_row_without_pairs (T := float) Multiplied
              (bodies_at_rest 2 [point_mate; ((0, 1)%Z, ([], [gp_Pnt origin]))])
              (repeat 0%float 12) 1 0%Z 1%Z [] [gp_Pnt origin])
    as (rv & Hrv & Hrow).
  - split; reflexivity.
  - reflexivity.
  - repeat constructor; unfold index_in_range; simpl; lia.
  - reflexivity.
  - left; reflexivity.
  - exists rv; split; [exact Hrv | exact Hrow].
Defined.

(* ================================================================== *)
(** ** Further properties of the residual function: symmetries *)

Section CostSymmetries.

Local Open Scope R_scope.

Variable rotate : gp_Mat R -> gp_Vec R -> gp_Vec R.

Lemma mapM_map {A B C : Type} (g : A -> B) (f : B -> result C) (l : list A) :
  mapM f (map g l) = mapM (fun a => f (g a)) l.
Proof.
  induction l as [|a l IH]; simpl; [reflexivity | rewrite IH; reflexivity].
Qed.

Lemma euclidean_distance_sym (u v : gp_Vec R) :
  euclidean_distance u v = euclidean_distance v u.
Proof. unfold euclidean_distance; f_equal; ring. Qed.

Lemma spec_pair_term_sym (t1 t2 : gp_Trsf R) (m1 m2 : ConstraintMarker R) :
  spec_pair_term rotate t2 t1 (m2, m1) = spec_pair_term rotate t1 t2 (m1, m2).
Proof.
  destruct m1, m2; simpl; try reflexivity.
  - apply euclidean_distance_sym.
  - unfold Dot; simpl; ring.
Qed.

Lemma spec_residual_sym (t1 t2 : gp_Trsf R) (ms1 ms2 : list (ConstraintMarker R)) :
  spec_residual rotate t2 t1 ms2 ms1 = spec_residual rotate t1 t2 ms1 ms2.
Proof.
  unfold spec_residual.
  revert ms2; induction ms1 as [|m1 ms1 IH]; intros [|m2 ms2]; try reflexivity.
  cbn [combine map]; unfold sum_list in *; cbn [fold_right].
  rewrite IH, spec_pair_term_sym; reflexivity.
Qed.

Lemma pairs_share_kind_sym (ms1 ms2 : list (ConstraintMarker R)) :
  pairs_share_kind ms1 ms2 -> pairs_share_kind ms2 ms1.
Proof.
  unfold pairs_share_kind.
  revert ms2; induction ms1 as [|m1 ms1 IH]; intros [|m2 ms2] H; simpl;
    try constructor.
  - inversion H as [|? ? Hh Ht]; subst; simpl in *.
    destruct m1, m2; simpl in *; (reflexivity || discriminate Hh).
  - inversion H as [|? ? Hh Ht]; subst; apply IH; exact Ht.
Qed.

(** The residual does not tell the two sides of a constraint apart: when
    the zipped pairs share their kind and the indices are in range, a
    solver constructed with every constraint read from its other side
    gives the same residual vector. *)
Theorem cost_symmetric_in_sides (locs : list (Location R)) (cs : Constraints R)
    (self self' : ConstraintSolver R) (x : list R) :
  __init__ locs cs = Ok self ->
  __init__ locs (map swap_sides cs) = Ok self' ->
  length x = (6 * length locs)%nat ->
  Forall (constraint_zip_wf (length locs)) cs ->
  _cost rotate self' x = _cost rotate self x.
Proof.
  intros Hs Hs' Hx Hcs.
  destruct (__init___inv _ _ _ Hs) as ((_ & Hnc) & Hc & Hne & _).
  destruct (__init___inv _ _ _ Hs') as ((_ & Hnc') & Hc' & Hne' & _).
  rewrite !_cost_rows by assumption.
  rewrite Hc, Hc', Hne, Hne'.
  rewrite !transforms_in_range by exact Hx; simpl.
  rewrite mapM_map.
  apply mapM_ext_in; intros [[k1 k2] [ms1 ms2]] Hin.
  pose proof (proj1 (Forall_forall _ _) Hcs _ Hin) as (H1 & H2 & Hps).
  unfold swap_sides.
  rewrite (row_value_share_kind rotate x (length locs) k2 k1 ms2 ms1)
    by exact (conj H2 (conj H1 (pairs_share_kind_sym ms1 ms2 Hps))).
  rewrite spec_residual_sym; symmetry.
  apply row_value_share_kind; exact (conj H1 (conj H2 Hps)).
Qed.

Lemma sum_list_nonneg (l : list R) :
  Forall (fun r => 0 <= r) l ->
  0 <= sum_list l /\ (sum_list l = 0 <-> Forall (fun r => r = 0) l).
Proof.
  induction 1 as [|r l Hr _ [IHge IHz]]; simpl.
  - split; [lra|]; split; [constructor | reflexivity].
  - split; [lra|]; split.
    + intros Hz; constructor; [lra|]; apply IHz; lra.
    + intros Hall; inversion Hall as [|? ? Hr0 Hl0]; subst.
      rewrite (proj2 IHz Hl0); lra.
Qed.

(** A constraint made of point pairs has a non-negative residual, and the
    residual is zero exactly when every pair of points coincides in world
    space. *)
Theorem cost_point_row_zero_iff_coincident (self : ConstraintSolver R) (x : list R)
    (i : nat) (k1 k2 : Z) (ms1 ms2 : list (ConstraintMarker R)) :
  solver_inv self -> length x = (6 * ne self)%nat ->
  Forall (constraint_zip_wf (ne self)) (constraints self) ->
  nth_error (constraints self) i = Some ((k1, k2), (ms1, ms2)) ->
  Forall (fun p => is_point_pair p = true) (combine ms1 ms2) ->
  exists rv,
    _cost rotate self x = Ok rv /\
    0 <= nth i rv 0 /\
    (nth i rv 0 = 0 <->
     Forall (world_points_coincide rotate (pose_at x (Z.to_nat k1))
                                          (pose_at x (Z.to_nat k2)))
            (combine ms1 ms2)).
Proof.
  intros Hinv Hx Hcs Hi Hpts.
  destruct (_cost_share_kind rotate self x Hinv Hx Hcs) as (rv & Hrv & _ & Hrows).
  exists rv; split; [exact Hrv|].
  rewrite (Hrows i k1 k2 ms1 ms2 Hi); unfold spec_residual.
  set (t1 := pose_at x (Z.to_nat k1)); set (t2 := pose_at x (Z.to_nat k2)).
  destruct (sum_list_nonneg (map (spec_pair_term rotate t1 t2) (combine ms1 ms2)))
    as [Hge Hz].
  { apply Forall_map; apply Forall_impl with (2 := Hpts).
    intros [[p1| |] [p2| |]] Hp; try discriminate Hp.
    apply euclidean_distance_nonneg. }
  split; [exact Hge|].
  rewrite Hz, Forall_map.
  split; intros Hall; apply Forall_forall; intros p Hp;
    pose proof (proj1 (Forall_forall _ _) Hall p Hp) as Hone;
    pose proof (proj1 (Forall_forall _ _) Hpts p Hp) as Hpt;
    destruct p as [[p1| |] [p2| |]]; try discriminate Hpt; simpl in *;
    apply euclidean_distance_zero; exact Hone.
Qed.

End CostSymmetries.

Lemma cost_symmetric_in_sides_two_bodies :
  exists self self',
    __init__ [at_rest; at_rest] [point_mate; direction_mate] = Ok self /\
    __init__ [at_rest; at_rest] (map swap_sides [point_mate; direction_mate]) = Ok self' /\
    _cost Multiplied self' (repeat 0%R 12) =
    _cost Multiplied self (repeat 0%R 12).
Proof.
  assert (Hreg : existsb singular [at_rest (T := R); at_rest] = false).
  { apply kernel_poses_regular; repeat constructor; exact at_rest_kernel_pose. }
  destruct (__init___regular [at_rest; at_rest] [point_mate; direction_mate] Hreg)
    as (self & Hs).
  destruct (__init___regular [at_rest; at_rest]
              (map swap_sides [point_mate; direction_mate]) Hreg) as (self' & Hs').
  exists self, self'; split; [exact Hs|]; split; [exact Hs'|].
  apply (cost_symmetric_in_sides Multiplied [at_rest; at_rest]
           [point_mate; direction_mate] self self' (repeat 0%R 12) Hs Hs').
  - reflexivity.
  - repeat constructor; unfold index_in_range; simpl; lia.
Defined.

Lemma cost_point_row_zero_iff_coincident_two_bodies :
  exists rv,
    _cost Multiplied (bodies_at_rest 2 [point_mate]) (repeat 0%R 12) = Ok rv /\
    (0 <= nth 0 rv 0)%R.
Proof.
  destruct (cost_point_row_zero_iff_coincident Multiplied
              (bodies_at_rest 2 [point_mate]) (repeat 0%R 12) 0 0%Z 1%Z
              [gp_Pnt origin] [gp_Pnt origin]) as (rv & Hrv & Hge & _).
  - split; reflexivity.
  - reflexivity.
  - repeat constructor; unfold index_in_range; simpl; lia.
  - reflexivity.
  - repeat constructor.
  - exists rv; split; [exact Hrv | exact Hge].
Defined.

(* ================================================================== *)
(** ** The translation parameters *)

Section TranslationParameters.

Context {T : Type} `{AT : Arith T}.

Variable rotate : gp_Mat T -> gp_Vec T -> gp_Vec T.

Lemma pose_at_rotation_parameters (x y : list T) (n i : nat) :
  same_rotation_parameters n x y -> (i < n)%nat -> pose_at x i = pose_at y i.
Proof.
  intros Hxy Hi; unfold pose_at; rewrite !build_transform_parts.
  pose proof (Hxy i 0%nat Hi ltac:(lia)) as H0.
  pose proof (Hxy i 1%nat Hi ltac:(lia)) as H1.
  pose proof (Hxy i 2%nat Hi ltac:(lia)) as H2.
  replace (6 * i + 3 + 0)%nat with (6 * i + 3)%nat in H0 by lia.
  replace (6 * i + 3 + 1)%nat with (6 * i + 4)%nat in H1 by lia.
  replace (6 * i + 3 + 2)%nat with (6 * i + 5)%nat in H2 by lia.
  rewrite H0, H1, H2; reflexivity.
Qed.

(** X19.  The residual does not see the translation parameters: the
    poses it builds have no translation, since [SetRotation] resets the one
    [SetTranslation] stored.  Two parameter vectors of the right length
    that agree on the rotation parameters [a, b, c] of every body give the
    same residual vector, or the same exception. *)
Theorem cost_ignores_translation_parameters (self : ConstraintSolver T)
    (x y : list T) :
  length x = (6 * ne self)%nat -> length y = (6 * ne self)%nat ->
  same_rotation_parameters (ne self) x y ->
  _cost rotate self x = _cost rotate self y.
Proof.
  intros Hx Hy Hxy; unfold _cost.
  rewrite !transforms_in_range by assumption.
  replace (map (pose_at y) (seq 0 (ne self)))
    with (map (pose_at x) (seq 0 (ne self))); [reflexivity|].
  apply map_ext_in; intros i Hi; apply in_seq in Hi.
  apply pose_at_rotation_parameters with (n := ne self); [exact Hxy | lia].
Qed.

End TranslationParameters.

Lemma cost_ignores_translation_parameters_two_bodies :
  _cost Multiplied
        (bodies_at_rest 2 [((0, 1)%Z, ([gp_Pnt origin], [gp_Pnt unit_x]))])
        [1%float; 2%float; 3%float; 0%float; 0%float; 0%float;
         4%float; 5%float; 6%float; 0%float; 0%float; 0%float] =
  _cost Multiplied
        (bodies_at_rest 2 [((0, 1)%Z, ([gp_Pnt origin], [gp_Pnt unit_x]))])
        (repeat 0%float 12).
Proof.
  apply (cost_ignores_translation_parameters Multiplied
           (bodies_at_rest 2 [((0, 1)%Z, ([gp_Pnt origin], [gp_Pnt unit_x]))])).
  - reflexivity.
  - reflexivity.
  - intros i d Hi Hd.
    destruct i as [|[|i]]; [| |simpl in Hi; lia];
      (destruct d as [|[|[|d]]]; [reflexivity | reflexivity | reflexivity | lia]).
Defined.

(* ================================================================== *)
(** ** Further properties of [solve] *)

Section DriverEdges.

Context {T : Type} `{AT : Arith T}.

Variable rotate : gp_Mat T -> gp_Vec T -> gp_Vec T.

Lemma mapM_Ok_Forall {A B : Type} (f : A -> result B) (l : list A) (r : list B) :
  mapM f l = Ok r -> Forall (fun b => exists a, In a l /\ f a = Ok b) r.
Proof.
  revert r; induction l as [|a l IH]; simpl; intros r H.
  - injection H as <-; constructor.
  - apply bind_Ok_inv in H as (b & Hb & H).
    apply bind_Ok_inv in H as (bs & Hbs & H).
    injection H as <-; constructor.
    + exists a; split; [left; reflexivity | exact Hb].
    + apply Forall_impl with (2 := IH bs Hbs).
      intros b' (a' & Hin & Ha'); exists a'; split; [right|]; assumption.
Qed.

Lemma build_slice_Ok_inv (x : list T) (i : nat) (t : gp_Trsf T) :
  build_slice x i = Ok t ->
  exists x_ y_ z_ a b c, t = _build_transform x_ y_ z_ a b c.
Proof.
  unfold build_slice.
  destruct (py_slice x _ _) as [|x_ [|y_ [|z_ [|a [|b [|c [|? ?]]]]]]];
    intros H; try discriminate H.
  injection H as <-; exists x_, y_, z_, a, b, c; reflexivity.
Qed.

(** Whatever the optimizer does, a [solve] that returns gives one pose per
    entity, and every pose it gives is one that [_build_transform] built. *)
Theorem solve_returns_built_poses
    (least_squares : list T -> list (list T) -> Optimizer T)
    (self : ConstraintSolver T) (poses : list (Location T)) :
  solve rotate least_squares self = Ok poses ->
  length poses = ne self /\
  Forall (fun loc => exists x y z a b c,
            loc = mk_Location (_build_transform x y z a b c)) poses.
Proof.
  unfold solve; intros H.
  apply bind_Ok_inv in H as (sp & _ & H).
  apply bind_Ok_inv in H as (x & _ & H).
  split.
  - rewrite (mapM_Ok_length _ _ _ H), length_seq; reflexivity.
  - apply Forall_impl with (2 := mapM_Ok_Forall _ _ _ H).
    intros loc (i & _ & Hi).
    apply bind_Ok_inv in Hi as (t & Ht & Hloc).
    injection Hloc as <-.
    destruct (build_slice_Ok_inv x i t Ht) as (x_ & y_ & z_ & a & b & c & ->).
    exists x_, y_, z_, a, b, c; reflexivity.
Qed.

(** An exception raised by the optimizer's first residual evaluation leaves
    [solve] as it was raised: nothing catches or replaces it. *)
Theorem solve_propagates_first_exception
    (least_squares : list T -> list (list T) -> Optimizer T)
    (self : ConstraintSolver T) (x : list T) (k : list T -> Optimizer T) (e : exn) :
  solver_inv self ->
  (forall sp, least_squares (ravel (entities self)) sp = Evaluate x k) ->
  _cost rotate self x = Raise e ->
  solve rotate least_squares self = Raise e.
Proof.
  intros [_ Hnc] Hls He; unfold solve.
  rewrite _jacobianSparsity_rows by exact Hnc; simpl.
  rewrite Hls; simpl; rewrite He; reflexivity.
Qed.

End DriverEdges.

Lemma solve_returns_built_poses_two_bodies :
  length [at_rest (T := float); at_rest] = 2%nat /\
  Forall (fun loc => exists x y z a b c,
            loc = mk_Location (_build_transform x y z a b c))
         [at_rest (T := float); at_rest].
Proof.
  apply (solve_returns_built_poses (T := float) Multiplied one_evaluation
           (bodies_at_rest 2 [point_mate])).
  vm_compute; reflexivity.
Defined.

Lemma solve_propagates_first_exception_two_bodies :
  solve (T := float) Multiplied one_evaluation
        (bodies_at_rest 2 [((0, 1)%Z, ([py_object], [gp_Pnt origin]))]) =
  Raise NotImplementedError.
Proof.
  apply (solve_propagates_first_exception (T := float) Multiplied one_evaluation
           (bodies_at_rest 2 [((0, 1)%Z, ([py_object], [gp_Pnt origin]))])
           (repeat 0%float 12) (fun _ => Finish (repeat 0%float 12))).
  - split; reflexivity.
  - intros sp; reflexivity.
  - vm_compute; reflexivity.
Defined.
